(** * Entitlement ledger of functions/index.js

    A shallow embedding of the Cloud Functions in [functions/index.js]:
    the Stripe webhook with its three event handlers, the two Express
    routes that open checkout and billing-portal sessions, the three
    claim endpoints [getClaims], [useClaim] and [redeemPoints], and the
    script of the claims page that calls them.

    Modelling conventions.
    - The strings the handlers compute with (ids, names, keys) are
      sequences of code units below 256.  The white space that
      [String.prototype.trim] removes is the set of white-space and
      line-terminator code units in that range.
    - Firestore is a record of three finite maps: the [health_plans]
      collection, the [patients] collection, and for every patient key the
      [purchases] subcollection (which exists independently of the parent
      document, as in Firestore).  Document ids are single path segments.
    - Numbers stored in documents ([used], [limit], [points],
      [purchased_at]) are integers.
    - A handler is a computation in a state-and-exception monad over a
      [World]: the database, the log of database accesses, and the HTTP
      response slot (written once; a second [send] throws, as Express does).
    - Every handler reads the clock once; the payment provider is a set of
      functions handed to the handlers that use it.
    - A write that a handler starts is applied, also where the handler does
      not wait for it ([useClaim] awaits none of its updates).
    - Message texts are kept as the bytes of the source file.
    - The page's script is what it shows (the buttons and the points) and
      the requests it sends; [points / 10] is a fraction. *)

From Stdlib Require Import ZArith Ascii String.
From Stdlib Require QArith Qminmax.
From stdpp Require Import gmap strings list fin_maps pretty sorting.

Local Open Scope string_scope.
Local Open Scope list_scope.
Local Open Scope Z_scope.

(** ** JavaScript string helpers *)

Fixpoint all_chars (f : ascii → bool) (s : string) : bool :=
  match s with
  | EmptyString => true
  | String c s' => f c && all_chars f s'
  end.

Module JS.

(** Code units removed by [trim]: TAB, LF, VT, FF, CR, SPACE, NBSP. *)
Definition is_whitespace (c : ascii) : bool :=
  let n := N_of_ascii c in
  ((n =? 9) || (n =? 10) || (n =? 11) || (n =? 12) || (n =? 13)
   || (n =? 32) || (n =? 160))%N.

Fixpoint trimStart (s : string) : string :=
  match s with
  | EmptyString => EmptyString
  | String c s' => if is_whitespace c then trimStart s' else s
  end.

Fixpoint trimEnd (s : string) : string :=
  match s with
  | EmptyString => EmptyString
  | String c s' =>
      match trimEnd s' with
      | EmptyString =>
          if is_whitespace c then EmptyString else String c EmptyString
      | t => String c t
      end
  end.

Definition trim (s : string) : string := trimEnd (trimStart s).

Fixpoint repeat0 (n : nat) : string :=
  match n with
  | O => EmptyString
  | S n' => String "0" (repeat0 n')
  end.

(** [s.padStart(n, "0")] *)
Definition padStart0 (n : nat) (s : string) : string :=
  repeat0 (n - String.length s) +:+ s.


(** Truthiness of a string: [!s] holds exactly for the empty string. *)
Definition truthy (s : string) : bool :=
  match s with EmptyString => false | _ => true end.

Definition truthy_opt (s : option string) : bool :=
  match s with Some s => truthy s | None => false end.

End JS.

(** The newline character that the endpoints append to an id. *)
Definition NL : string := String "010"%char EmptyString.

(** [userId.trim() + "\n"]: the rewrite every endpoint applies to the id
    it receives. *)
Definition normalizeId (id : string) : string := JS.trim id +:+ NL.

(** ** Wall clock *)

Record Clock := {
  getFullYear : Z;
  getMonth : nat;        (* 0 .. 11 *)
  now : Z                (* milliseconds, the value of [new Date()] *)
}.

(** [`claims_${year}-${(month + 1).toString().padStart(2, "0")}`] *)
Definition claimsKey (c : Clock) : string :=
  "claims_" +:+ pretty (getFullYear c) +:+ "-"
    +:+ JS.padStart0 2 (pretty (S (getMonth c))).

(** ** Documents *)

Record ClaimDetails := { used : Z; limit : Z }.

Record ClaimableItem := { item_name : string; item_limit : Z }.

Record Plan := {
  name : string;
  stripe_product_id : string;
  stripe_price_id : string;
  claimable_items : list ClaimableItem
}.

Record Patient := {
  points : option Z;
  stripeCustomerId : option string;
  subscription_status : option string
}.

Record Purchase := {
  health_plan_name : string;
  health_plan_id : string;
  purchased_at : Z;
  p_stripeCustomerId : string;
  p_subscription_status : string;
  claims : gmap string (gmap string ClaimDetails)
}.

Global Instance ClaimDetails_eq_dec : EqDecision ClaimDetails.
Proof. solve_decision. Defined.
Global Instance ClaimableItem_eq_dec : EqDecision ClaimableItem.
Proof. solve_decision. Defined.
Global Instance Patient_eq_dec : EqDecision Patient.
Proof. solve_decision. Defined.
Global Instance Purchase_eq_dec : EqDecision Purchase.
Proof. solve_decision. Defined.

(** ** The database *)

Record Store := {
  health_plans : gmap string Plan;
  patients : gmap string Patient;
  (** [patients/{key}/purchases/{id}]; a missing key is an empty
      subcollection. *)
  purchases : gmap string (gmap string Purchase)
}.

Definition purchasesOf (s : Store) (key : string) : gmap string Purchase :=
  default ∅ (purchases s !! key).

Inductive Ref :=
| PlansColl
| PlanDoc (id : string)
| PatientsColl
| PatientDoc (key : string)
| PurchasesColl (key : string)
| PurchaseDoc (key id : string).

Inductive Access :=
| Read (r : Ref)
| Write (r : Ref).

(** Query results come back ordered by document name unless the query
    orders them otherwise. *)
Definition by_name {A} (x y : string * A) : Prop := String.leb x.1 y.1.

Definition docs {A} (m : gmap string A) : list (string * A) :=
  merge_sort by_name (map_to_list m).

(** [orderBy("purchased_at", "desc")]: newest first, equal timestamps by
    descending document name. *)
Definition newer (x y : string * Purchase) : bool :=
  ((purchased_at y.2 <? purchased_at x.2)%Z
   || ((purchased_at y.2 =? purchased_at x.2)%Z && String.leb y.1 x.1)).

Definition newest_first (x y : string * Purchase) : Prop := newer x y.

Definition orderBy_purchased_at_desc (m : gmap string Purchase)
  : list (string * Purchase) :=
  merge_sort newest_first (map_to_list m).

(** ** HTTP responses *)

Record ClaimEntry := { ce_name : string; ce_used : Z; ce_limit : Z }.

Inductive Body :=
| Text (s : string)                               (* res.send(text) *)
| JsonError (msg : string)                        (* {error: msg} *)
| JsonReceived                                    (* {received: true} *)
| JsonClaims (cl : list ClaimEntry) (pts : Z)     (* {claims, points} *)
| JsonSession (id url : string)                   (* {id, url} *)
| JsonUrl (url : string).                         (* {url} *)

Record Response := { status : Z; body : Body }.

(** ** The handler monad *)

Record World := {
  db : Store;
  log : list Access;
  resp : option Response
}.

Inductive Outcome (A : Type) :=
| Done (a : A)
| Throw (msg : string).
Arguments Done {A} a.
Arguments Throw {A} msg.

Definition M (A : Type) : Type := World → Outcome A * World.

Definition ret {A} (a : A) : M A := λ w, (Done a, w).

Definition bind {A B} (c : M A) (k : A → M B) : M B :=
  λ w, match c w with
       | (Done a, w') => k a w'
       | (Throw e, w') => (Throw e, w')
       end.

Definition throw {A} (msg : string) : M A := λ w, (Throw msg, w).

(** [try { c } catch (error) { h error.message }] *)
Definition try_catch {A} (c : M A) (h : string → M A) : M A :=
  λ w, match c w with
       | (Done a, w') => (Done a, w')
       | (Throw e, w') => h e w'
       end.

(** Calling an [async] function without awaiting the promise it returns:
    its body runs up to its first suspension, and an exception in it
    rejects a promise nobody looks at. *)
Definition detached (c : M unit) : M unit :=
  λ w, match c w with
       | (_, w') => (Done (), w')
       end.

Declare Scope handler_scope.
Delimit Scope handler_scope with handler.
Notation "x <- c ; k" := (bind c (λ x, k))
  (at level 100, c at next level, right associativity) : handler_scope.
Notation "c ;; k" := (bind c (λ _, k))
  (at level 100, right associativity) : handler_scope.
Local Open Scope handler_scope.

(** *** Express *)

(** [res.status(code).send(body)] / [res.status(code).json(body)]: once a
    response went out, sending again throws. *)
Definition send (code : Z) (b : Body) : M unit :=
  λ w, match resp w with
       | Some _ =>
           (Throw "Cannot set headers after they are sent to the client", w)
       | None =>
           (Done (), {| db := db w; log := log w;
                        resp := Some {| status := code; body := b |} |})
       end.

(** *** Firestore *)

Definition access (a : Access) : M unit :=
  λ w, (Done (), {| db := db w; log := log w ++ [a]; resp := resp w |}).

Definition getStore : M Store := λ w, (Done (db w), w).

Definition putStore (s : Store) : M unit :=
  λ w, (Done (), {| db := s; log := log w; resp := resp w |}).

(** [collection.doc(id)]: the id has to be a non-empty string. *)
Definition docId (id : option string) : M string :=
  match id with
  | Some (String c s) => ret (String c s)
  | _ => throw "Value for argument documentPath is not a valid resource path"
  end.

Definition getPlan (id : string) : M (option Plan) :=
  access (Read (PlanDoc id)) ;;
  s <- getStore ;
  ret (health_plans s !! id).

Definition getPatient (key : string) : M (option Patient) :=
  access (Read (PatientDoc key)) ;;
  s <- getStore ;
  ret (patients s !! key).

(** [collection("patients").get()] *)
Definition getPatients : M (list (string * Patient)) :=
  access (Read PatientsColl) ;;
  s <- getStore ;
  ret (docs (patients s)).

(** [collection("health_plans").where("stripe_product_id", "==", v).limit(1)] *)
Definition queryPlanByProduct (v : string) : M (list (string * Plan)) :=
  access (Read PlansColl) ;;
  s <- getStore ;
  ret (take 1 (filter (λ d, stripe_product_id d.2 = v) (docs (health_plans s)))).

(** [purchases.where("stripeCustomerId", "==", v).limit(1)] *)
Definition queryPurchaseByCustomer (key v : string)
  : M (list (string * Purchase)) :=
  access (Read (PurchasesColl key)) ;;
  s <- getStore ;
  ret (take 1 (filter (λ d, p_stripeCustomerId d.2 = v) (docs (purchasesOf s key)))).

(** [purchases.where("health_plan_id", "==", v).limit(1)] *)
Definition queryPurchaseByPlan (key v : string)
  : M (list (string * Purchase)) :=
  access (Read (PurchasesColl key)) ;;
  s <- getStore ;
  ret (take 1 (filter (λ d, health_plan_id d.2 = v) (docs (purchasesOf s key)))).

(** [purchases.orderBy("purchased_at", "desc").get()] *)
Definition queryPurchasesNewestFirst (key : string)
  : M (list (string * Purchase)) :=
  access (Read (PurchasesColl key)) ;;
  s <- getStore ;
  ret (orderBy_purchased_at_desc (purchasesOf s key)).

Definition setPurchase (key id : string) (p : Purchase) (s : Store) : Store :=
  {| health_plans := health_plans s;
     patients := patients s;
     purchases := <[key := <[id := p]> (purchasesOf s key)]> (purchases s) |}.

Definition setPatient (key : string) (p : Patient) (s : Store) : Store :=
  {| health_plans := health_plans s;
     patients := <[key := p]> (patients s);
     purchases := purchases s |}.

(** [purchases.add(data)]: creates the document under a fresh
    automatic id; creation fails when the id is taken. *)
Definition addPurchase (key autoId : string) (p : Purchase) : M unit :=
  access (Write (PurchaseDoc key autoId)) ;;
  s <- getStore ;
  match purchasesOf s key !! autoId with
  | Some _ => throw "ALREADY_EXISTS"
  | None => putStore (setPurchase key autoId p s)
  end.

(** [patientRef.update({field: v})]: changes the given fields of an
    existing document and fails on a missing one. *)
Definition updatePatient (key : string) (f : Patient → Patient) : M unit :=
  access (Write (PatientDoc key)) ;;
  s <- getStore ;
  match patients s !! key with
  | None => throw "NOT_FOUND"
  | Some p => putStore (setPatient key (f p) s)
  end.

Definition set_subscription_status (v : string) (p : Patient) : Patient :=
  {| points := points p;
     stripeCustomerId := stripeCustomerId p;
     subscription_status := Some v |}.

Definition set_points (v : Z) (p : Patient) : Patient :=
  {| points := Some v;
     stripeCustomerId := stripeCustomerId p;
     subscription_status := subscription_status p |}.

(** A key of an update is a dotted field path.  The client library
    refuses a path with an empty segment or one of the characters
    [* ~ / [ ]]; a dot inside the name would address a nested field, which
    the ledger has no place for, so the model refuses it as well. *)
Definition field_char_ok (c : ascii) : bool :=
  negb (bool_decide (c ∈ ["."; "*"; "~"; "/"; "["; "]"]%char)).

Definition field_segment (s : string) : bool :=
  JS.truthy s && all_chars field_char_ok s.

Definition set_claim (K claimName : string) (d : ClaimDetails) (p : Purchase)
  : Purchase :=
  {| health_plan_name := health_plan_name p;
     health_plan_id := health_plan_id p;
     purchased_at := purchased_at p;
     p_stripeCustomerId := p_stripeCustomerId p;
     p_subscription_status := p_subscription_status p;
     claims := <[K := <[claimName := d]> (default ∅ (claims p !! K))]> (claims p) |}.

(** [doc.ref.update({[`claims.${K}.${claimName}`]: d})] *)
Definition updateClaim (key id K claimName : string) (d : ClaimDetails)
  : M unit :=
  if negb (field_segment claimName) then throw "Invalid field path"
  else
    access (Write (PurchaseDoc key id)) ;;
    s <- getStore ;
    match purchasesOf s key !! id with
    | None => throw "NOT_FOUND"
    | Some p => putStore (setPurchase key id (set_claim K claimName d p) s)
    end.

(** ** Property lookup on a plain object *)

(** The properties every object inherits from [Object.prototype]. *)
Definition inherited_names : list string :=
  [ "constructor"; "__defineGetter__"; "__defineSetter__"; "hasOwnProperty";
    "__lookupGetter__"; "__lookupSetter__"; "isPrototypeOf";
    "propertyIsEnumerable"; "toString"; "valueOf"; "__proto__";
    "toLocaleString" ].

Inductive Property :=
| Own (d : ClaimDetails)
| Inherited
| Undefined.

(** [claimsForCurrentMonth[claimName]] *)
Definition js_get (o : gmap string ClaimDetails) (k : string) : Property :=
  match o !! k with
  | Some d => Own d
  | None => if bool_decide (k ∈ inherited_names) then Inherited else Undefined
  end.

(** The names for which [js_get] is the ledger lookup and [updateClaim]
    the targeted write. *)
Definition item_name_ok (k : string) : bool :=
  field_segment k && negb (bool_decide (k ∈ inherited_names)).

(** ** Webhook events *)

(** The fields the handlers read from [event.data.object].  An absent field
    is [None]. *)
Record Session := {
  client_reference_id : option string;
  metadata_planId : option string;
  customer : string
}.

Record Subscription := {
  sub_client_reference_id : option string;
  sub_customer : string;
  cancel_at_period_end : bool
}.

Inductive Event :=
| CheckoutSessionCompleted (session : Session)     (* checkout.session.completed *)
| CustomerSubscriptionUpdated (sub : Subscription) (* customer.subscription.updated *)
| CustomerSubscriptionDeleted (sub : Subscription) (* customer.subscription.deleted *)
| OtherEvent (type : string).

(** The claims of the month of purchase: every item of the plan with
    [used: 0] and its limit ([claimable_items.reduce]). *)
Definition initialClaims (items : list ClaimableItem)
  : gmap string ClaimDetails :=
  foldl (λ claims item,
           <[item_name item := {| used := 0; limit := item_limit item |}]> claims)
        ∅ items.

Definition newPurchase (clock : Clock) (planId customerId : string)
    (planData : Plan) : Purchase :=
  {| health_plan_name := name planData;
     health_plan_id := planId;
     purchased_at := now clock;
     p_stripeCustomerId := customerId;
     p_subscription_status := "active";
     claims := {[ claimsKey clock := initialClaims (claimable_items planData) ]} |}.

Definition handleCheckoutSessionCompleted (clock : Clock) (autoId : string)
    (session : Session) : M unit :=
  let userId := client_reference_id session in
  let planId := metadata_planId session in
  let customerId := customer session in
  planId <- docId planId ;
  planDoc <- getPlan planId ;
  (* if (!planDoc.exists) console.log("No such plan found!") *)
  userId <- docId userId ;
  patientDocSnapshot <- getPatient userId ;
  (* if (!patientDocSnapshot.exists) console.error("Patient not found") *)
  match planDoc with
  | None => throw "Cannot read properties of undefined (reading 'name')"
  | Some planData =>
      addPurchase userId autoId (newPurchase clock planId customerId planData)
  end.

Definition handleSubscriptionUpdated (subscription : Subscription) : M unit :=
  let userId := sub_client_reference_id subscription in
  let customerId := sub_customer subscription in
  let cancelAtPeriodEnd := cancel_at_period_end subscription in
  userId <- docId userId ;
  purchasesQuerySnapshot <- queryPurchaseByCustomer userId customerId ;
  match purchasesQuerySnapshot with
  | [] => ret ()                     (* console.error(...); return *)
  | purchaseDoc :: _ =>
      (* patientRef = purchaseDoc.ref.parent.parent *)
      let patientRef := userId in
      if cancelAtPeriodEnd
      then updatePatient patientRef (set_subscription_status "inactive")
      else updatePatient patientRef (set_subscription_status "active")
  end.

Definition handleSubscriptionCancellation (subscription : Subscription)
  : M unit :=
  ret ().                            (* console.log only *)

(** ** Requests *)

Inductive Method := GET | POST | OtherMethod.

Global Instance Method_eq_dec : EqDecision Method.
Proof. solve_decision. Defined.

Record WebhookReq := {
  rawBody : string;
  stripe_signature : option string
}.

(** [userId] of the checkout route may be anything; the other ids are read
    with [.trim()], which only a string has: [None] stands for an absent or
    non-string value. *)
Inductive Arg :=
| Absent
| NonString (truthy : bool)
| Str (s : string).

Record CheckoutReq := { co_planId : option string; co_userId : Arg }.

Record PortalReq := { po_userId : option string; po_planId : option string }.

Record GetClaimsReq := { gc_patientId : option string }.

Record UseClaimReq := {
  uc_method : Method;
  uc_patientId : option string;
  uc_claimName : option string
}.

Record RedeemReq := {
  rp_method : Method;
  rp_patientId : option string;
  rp_pointsToRedeem : option Z
}.

Definition is_POST (m : Method) : bool :=
  match m with POST => true | _ => false end.

Definition TypeError_trim : string :=
  "Cannot read properties of undefined (reading 'trim')".

(** ** The claim endpoints *)

(** [patientDoc.data().points || 0]: an absent balance reads as 0 (and 0
    is the only falsy integer). *)
Definition points_or_0 (p : Patient) : Z := default 0 (points p).

Definition entries_of (o : gmap string ClaimDetails) : list ClaimEntry :=
  (λ e, {| ce_name := e.1; ce_used := used e.2; ce_limit := limit e.2 |})
    <$> map_to_list o.

(** [catch (error) { console.error(...); res.status(500).send(...) }] *)
Definition internal_error (_ : string) : M unit :=
  send 500 (Text "Internal Server Error").

Definition getClaims (clock : Clock) (req : GetClaimsReq) : M unit :=
  match gc_patientId req with
  | None => throw TypeError_trim
  | Some patientId =>
    let patientId := normalizeId patientId in
    if negb (JS.truthy patientId)
    then send 400 (Text "Patient ID is required")
    else
      let claimsKey := claimsKey clock in
      try_catch
        (patientDoc <- getPatient patientId ;
         match patientDoc with
         | None => send 404 (JsonError "Patient not found")
         | Some data =>
           let points := points_or_0 data in
           snapshot <- queryPurchasesNewestFirst patientId ;
           let claimsList :=
             flat_map (λ doc, entries_of (default ∅ (claims doc.2 !! claimsKey)))
                      snapshot in
           send 200 (JsonClaims claimsList points)
         end)
        internal_error
  end.

(** The callback of [snapshot.forEach] in [useClaim].  It is [async] and
    nobody awaits it: its [return] ends the callback only, and the
    update it starts is not waited for.  [found] is the variable of the
    enclosing handler. *)
Definition useClaim_each (patientId claimsKey claimName : string)
    (found : bool) (doc : string * Purchase) : M bool :=
  let claimsForCurrentMonth := default ∅ (claims doc.2 !! claimsKey) in
  match js_get claimsForCurrentMonth claimName with
  | Undefined => ret found
  | Own claimDetails =>
      detached
        (if (used claimDetails + 1 >? limit claimDetails)%Z
         then send 403 (Text "❌ Claim limit reached. Cannot redeem anymore.")
         else updateClaim patientId doc.1 claimsKey claimName
                {| used := used claimDetails + 1; limit := limit claimDetails |}) ;;
      ret true
  | Inherited =>
      (* [undefined + 1 > undefined] is false; the inherited value is not
         a Firestore value and the update refuses it *)
      detached (throw "Cannot encode value") ;;
      ret true
  end.

Fixpoint forEach_found (patientId claimsKey claimName : string)
    (snapshot : list (string * Purchase)) (found : bool) : M bool :=
  match snapshot with
  | [] => ret found
  | doc :: rest =>
      found <- useClaim_each patientId claimsKey claimName found doc ;
      forEach_found patientId claimsKey claimName rest found
  end.

(** What [useClaim] does once [purchasesRef.get()] has returned. *)
Definition useClaim_after_get (patientId claimsKey claimName : string)
    (snapshot : list (string * Purchase)) : M unit :=
  found <- forEach_found patientId claimsKey claimName snapshot false ;
  if negb found
  then send 404 (Text "Claim not found")
  else send 200 (Text "Claim incremented successfully").

Definition useClaim (clock : Clock) (req : UseClaimReq) : M unit :=
  if negb (is_POST (uc_method req))
  then send 405 (Text "Method Not Allowed")
  else
    match uc_patientId req with
    | None => throw TypeError_trim
    | Some patientId =>
      let patientId := normalizeId patientId in
      match uc_claimName req with
      | Some claimName =>
        if negb (JS.truthy patientId) || negb (JS.truthy claimName)
        then send 400 (Text "Patient ID and Claim Name are required")
        else
          try_catch
            (let claimsKey := claimsKey clock in
             snapshot <- queryPurchasesNewestFirst patientId ;
             useClaim_after_get patientId claimsKey claimName snapshot)
            internal_error
      | None => send 400 (Text "Patient ID and Claim Name are required")
      end
    end.

(** What [redeemPoints] does once [patientRef.get()] has returned. *)
Definition redeemPoints_after_get (patientId : string) (pointsToRedeem : Z)
    (patientDoc : option Patient) : M unit :=
  match patientDoc with
  | None => send 404 (Text "Patient not found")
  | Some data =>
      let currentPoints := points_or_0 data in
      if (currentPoints <? pointsToRedeem)%Z
      then send 400 (Text "Not enough points to redeem")
      else
        updatePatient patientId (set_points (currentPoints - pointsToRedeem)) ;;
        send 200 (Text "Points redeemed successfully")
  end.

Definition redeemPoints (req : RedeemReq) : M unit :=
  if negb (is_POST (rp_method req))
  then send 405 (Text "Method Not Allowed")
  else
    match rp_patientId req with
    | None => throw TypeError_trim
    | Some patientId =>
      let patientId := normalizeId patientId in
      match rp_pointsToRedeem req with
      | Some pointsToRedeem =>
        if negb (JS.truthy patientId) || (pointsToRedeem =? 0)%Z
           || (pointsToRedeem <=? 0)%Z
        then send 400 (Text "Invalid data provided")
        else
          try_catch
            (patientDoc <- getPatient patientId ;
             redeemPoints_after_get patientId pointsToRedeem patientDoc)
            internal_error
      | None => send 400 (Text "Invalid data provided")
      end
    end.

(** ** The payment provider's side *)

Record CheckoutParams := {
  cp_customer : option string;
  cp_price : string;
  cp_client_reference_id : string;
  cp_planId : string
}.

Section Stripe.

(** [stripe.webhooks.constructEvent(rawBody, sig, endpointSecret)]: the
    event, or the message of the error it throws. *)
Variable constructEvent : string → option string → string + Event.

(** [stripe.checkout.sessions.create(params)]: [(id, url)] of the session. *)
Variable checkout_sessions_create : CheckoutParams → string + (string * string).

(** [stripe.billingPortal.sessions.create({customer})]: the session's url. *)
Variable billingPortal_sessions_create : string → string + string.

Definition stripeWebhook (clock : Clock) (autoId : string) (req : WebhookReq)
  : M unit :=
  match constructEvent (rawBody req) (stripe_signature req) with
  | inl message => send 400 (Text ("Webhook Error: " +:+ message))
  | inr event =>
      match event with
      | CheckoutSessionCompleted session =>
          handleCheckoutSessionCompleted clock autoId session
      | CustomerSubscriptionUpdated sub => handleSubscriptionUpdated sub
      | CustomerSubscriptionDeleted sub => handleSubscriptionCancellation sub
      | OtherEvent _ => ret ()
      end ;;
      send 200 JsonReceived
  end.

Definition createCheckoutSession (req : CheckoutReq) : M unit :=
  try_catch
    (match co_planId req, co_userId req with
     | None, _ | Some EmptyString, _
     | _, Absent | _, NonString false | _, Str EmptyString =>
         send 400 (JsonError "Missing planId or userId")
     | _, NonString true => send 400 (JsonError "Invalid userId provided")
     | Some planId, Str userId =>
         let userId := normalizeId userId in
         stuffs <- getPatients ;
         planQuerySnapshot <- queryPlanByProduct planId ;
         match planQuerySnapshot with
         | [] => send 400 (JsonError "Invalid plan")
         | planDoc :: _ =>
             let selectedPlan := planDoc.2 in
             patientDocSnapshot <- getPatient userId ;
             match patientDocSnapshot with
             | None => send 404 (JsonError "Patient not found")
             | Some data =>
                 let customerId := stripeCustomerId data in
                 let params :=
                   {| cp_customer :=
                        if JS.truthy_opt customerId then customerId else None;
                      cp_price := stripe_price_id selectedPlan;
                      cp_client_reference_id := userId;
                      cp_planId := planDoc.1 |} in
                 match checkout_sessions_create params with
                 | inl message => throw message
                 | inr session => send 200 (JsonSession session.1 session.2)
                 end
             end
         end
     end)
    (λ message, send 500 (JsonError message)).

Definition createCustomerPortal (req : PortalReq) : M unit :=
  try_catch
    (match po_userId req with
     | None => throw TypeError_trim
     | Some userId =>
         let userId := normalizeId userId in
         if negb (JS.truthy userId) || negb (JS.truthy_opt (po_planId req))
         then send 400 (JsonError "Missing userId or planId")
         else
           let planId := default "" (po_planId req) in
           patientDocSnapshot <- getPatient userId ;
           match patientDocSnapshot with
           | None => send 404 (JsonError "Patient not found")
           | Some _ =>
               purchasesSnapshot <- queryPurchaseByPlan userId planId ;
               let customerId :=
                 match purchasesSnapshot with
                 | purchaseDoc :: _ => p_stripeCustomerId purchaseDoc.2
                 | [] => ""
                 end in
               if negb (JS.truthy customerId)
               then send 400 (JsonError "User does not have a Stripe Customer ID")
               else
                 match billingPortal_sessions_create customerId with
                 | inl message => throw message
                 | inr url => send 200 (JsonUrl url)
                 end
           end
     end)
    (λ _, send 500 (JsonError "Failed to create customer portal")).

End Stripe.

(** The response a client receives and the database a run leaves. *)
Definition run {A} (c : M A) (s : Store) : Outcome A * World :=
  c {| db := s; log := []; resp := None |}.

Definition response_of {A} (c : M A) (s : Store) : option Response :=
  resp (run c s).2.

Definition store_after {A} (c : M A) (s : Store) : Store := db (run c s).2.

Definition accesses_of {A} (c : M A) (s : Store) : list Access :=
  log (run c s).2.

Definition status_of {A} (c : M A) (s : Store) : option Z :=
  status <$> response_of c s.

(** ** Requests served one after another *)

Inductive Request :=
| ReqWebhook (clock : Clock) (autoId : string) (req : WebhookReq)
| ReqCheckout (req : CheckoutReq)
| ReqPortal (req : PortalReq)
| ReqGetClaims (clock : Clock) (req : GetClaimsReq)
| ReqUseClaim (clock : Clock) (req : UseClaimReq)
| ReqRedeem (req : RedeemReq).

Section Server.

Variable constructEvent : string → option string → string + Event.
Variable checkout_sessions_create : CheckoutParams → string + (string * string).
Variable billingPortal_sessions_create : string → string + string.

Definition handle (r : Request) : M unit :=
  match r with
  | ReqWebhook clock autoId req => stripeWebhook constructEvent clock autoId req
  | ReqCheckout req => createCheckoutSession checkout_sessions_create req
  | ReqPortal req => createCustomerPortal billingPortal_sessions_create req
  | ReqGetClaims clock req => getClaims clock req
  | ReqUseClaim clock req => useClaim clock req
  | ReqRedeem req => redeemPoints req
  end.

(** Each request runs to its end on the database the previous one left;
    the result is what each client received, and the final database. *)
Fixpoint serve (rs : list Request) (s : Store)
  : list (Request * option Response) * Store :=
  match rs with
  | [] => ([], s)
  | r :: rs' =>
      let out := serve rs' (store_after (handle r) s) in
      ((r, response_of (handle r) s) :: out.1, out.2)
  end.

End Server.

Definition answered (code : Z) (r : option Response) : bool :=
  match r with
  | Some r => (status r =? code)%Z
  | None => false
  end.




(** ** What the ledger records *)

(** The counter pair of item [c] in month [K] of purchase [id] of the
    patient stored under [k]. *)
Definition claim_at (p : Purchase) (K c : string) : option ClaimDetails :=
  claims p !! K ≫= λ m, m !! c.

Definition entry (s : Store) (k id K c : string) : option ClaimDetails :=
  purchasesOf s k !! id ≫= λ p, claim_at p K c.

(** Every recorded counter is within its limit. *)
Definition ledger_ok (s : Store) : Prop :=
  ∀ k id K c d, entry s k id K c = Some d → (used d ≤ limit d)%Z.


(** What a granted [useClaim] does to one purchase. *)
Definition bump (K c : string) (p : Purchase) : Purchase :=
  match claim_at p K c with
  | Some d => set_claim K c {| used := used d + 1; limit := limit d |} p
  | None => p
  end.

Definition at_limit (d : ClaimDetails) : bool := (used d + 1 >? limit d)%Z.

(** What the loop of [useClaim] does with one purchase: it has the claim
    ([holds]); it has it with room left ([grants]) or without ([refuses]). *)
Definition holds (K c : string) (p : Purchase) : bool :=
  match claim_at p K c with Some _ => true | None => false end.

Definition grants (K c : string) (p : Purchase) : bool :=
  match claim_at p K c with Some d => negb (at_limit d) | None => false end.

Definition refuses (K c : string) (p : Purchase) : bool :=
  match claim_at p K c with Some d => at_limit d | None => false end.

Definition hit (K c : string) (doc : string * Purchase) : bool :=
  holds K c doc.2 || bool_decide (c ∈ inherited_names).

Definition upd (K c : string) (p : Purchase) : Purchase :=
  if grants K c p && field_segment c then bump K c p else p.

Definition writes_of (k K c : string) (l : list (string * Purchase))
  : list Access :=
  (λ doc, Write (PurchaseDoc k doc.1))
    <$> filter (λ doc, grants K c doc.2 && field_segment c) l.

Definition limit_reached : Response :=
  {| status := 403;
     body := Text "❌ Claim limit reached. Cannot redeem anymore." |}.

Definition resp_after (K c : string) (l : list (string * Purchase))
    (r : option Response) : option Response :=
  match r with
  | Some r => Some r
  | None => if existsb (λ doc, refuses K c doc.2) l
            then Some limit_reached else None
  end.

Definition is_read (a : Access) : bool :=
  match a with Read _ => true | Write _ => false end.


(** ** Responses and helpers the statements name *)

Definition claim_not_found : Response :=
  {| status := 404; body := Text "Claim not found" |}.

Definition claim_incremented : Response :=
  {| status := 200; body := Text "Claim incremented successfully" |}.

Definition useClaim_response (K c : string) (l : list (string * Purchase))
  : Response :=
  if existsb (hit K c) l
  then if existsb (λ doc, refuses K c doc.2) l
       then limit_reached else claim_incremented
  else claim_not_found.

Definition redeem_ok : Response :=
  {| status := 200; body := Text "Points redeemed successfully" |}.

Definition redeem_short : Response :=
  {| status := 400; body := Text "Not enough points to redeem" |}.


Definition named (c : string) (items : list ClaimableItem)
  : list ClaimableItem :=
  filter (λ item, item_name item = c) items.

(** ** Checking the invariants of a given database *)

Definition ledger_checked (s : Store) : Prop :=
  map_Forall (λ _ (ps : gmap string Purchase),
    map_Forall (λ _ (p : Purchase),
      map_Forall (λ _ (m : gmap string ClaimDetails),
        map_Forall (λ _ (d : ClaimDetails), used d ≤ limit d) m)
        (claims p)) ps)
    (purchases s).

Definition plans_checked (s : Store) : Prop :=
  map_Forall (λ _ (plan : Plan),
    Forall (λ item, 0 ≤ item_limit item) (claimable_items plan))
    (health_plans s).

Global Instance ledger_checked_dec s : Decision (ledger_checked s).
Proof. unfold ledger_checked. apply _. Defined.

Global Instance plans_checked_dec s : Decision (plans_checked s).
Proof. unfold plans_checked. apply _. Defined.

(** ** Two requests at once *)

(** Two [useClaim] requests for the same claim that both received their
    snapshot before either went on: the responses, and the database left. *)
Definition useClaim_raced (clock : Clock) (id c : string) (s : Store)
  : option Response * option Response * Store :=
  let k := normalizeId id in
  let K := claimsKey clock in
  let snapshot := orderBy_purchased_at_desc (purchasesOf s k) in
  let rest := try_catch (useClaim_after_get k K c snapshot) internal_error in
  let s1 := store_after rest s in
  (response_of rest s, response_of rest s1, store_after rest s1).

(** Two [redeemPoints] requests of the same subscriber that both received
    the subscriber document before either went on. *)
Definition redeemPoints_raced (id : string) (amount : Z) (s : Store)
  : option Response * option Response * Store :=
  let k := normalizeId id in
  let patientDoc := patients s !! k in
  let rest := try_catch (redeemPoints_after_get k amount patientDoc)
                internal_error in
  let s1 := store_after rest s in
  (response_of rest s, response_of rest s1, store_after rest s1).

(** ** A small deployment *)

Module Demo.

Definition basic : Plan :=
{| name := "Basic"; stripe_product_id := "prod_basic";
   stripe_price_id := "price_basic";
   claimable_items := [ {| item_name := "dental"; item_limit := 2 |} ] |}.

(** The key of subscriber [u1]: the id followed by a newline. *)
Definition u1 : string := normalizeId "u1".

Definition march : Clock := {| getFullYear := 2025; getMonth := 2; now := 1000 |}.

Definition patient50 : Patient :=
{| points := Some 50; stripeCustomerId := None; subscription_status := None |}.

Definition purchase (at_ : Z) (used_ limit_ : Z) : Purchase :=
{| health_plan_name := "Basic"; health_plan_id := "basic";
   purchased_at := at_; p_stripeCustomerId := "cus_1";
   p_subscription_status := "active";
   claims := {[ "claims_2025-03" :=
                  {[ "dental" := {| used := used_; limit := limit_ |} ]} ]} |}.

(** Before any purchase. *)
Definition s0 : Store :=
{| health_plans := {[ "basic" := basic ]};
   patients := {[ u1 := patient50 ]};
   purchases := ∅ |}.

(** After the checkout of plan [basic]. *)
Definition s1 : Store :=
{| health_plans := {[ "basic" := basic ]};
   patients := {[ u1 := patient50 ]};
   purchases := {[ u1 := {[ "p1" := purchase 1000 0 2 ]} ]} |}.

Definition checkout_session : Session :=
{| client_reference_id := Some u1; metadata_planId := Some "basic";
   customer := "cus_1" |}.

Definition use_dental : UseClaimReq :=
{| uc_method := POST; uc_patientId := Some "u1";
   uc_claimName := Some "dental" |}.

Definition redeem30 : RedeemReq :=
{| rp_method := POST; rp_patientId := Some "u1";
   rp_pointsToRedeem := Some 30 |}.

(** Two purchases that both grant [dental], the newer one [pB]. *)
Definition two_holders : Store :=
{| health_plans := {[ "basic" := basic ]};
   patients := {[ u1 := patient50 ]};
   purchases := {[ u1 := {[ "pA" := purchase 1000 0 2;
                            "pB" := purchase 2000 0 2 ]} ]} |}.

(** The newer purchase [pB] has room, the older one [pA] is used up. *)
Definition one_used_up : Store :=
{| health_plans := {[ "basic" := basic ]};
   patients := {[ u1 := patient50 ]};
   purchases := {[ u1 := {[ "pA" := purchase 1000 2 2;
                            "pB" := purchase 2000 0 2 ]} ]} |}.

(** One purchase with a single unit of [dental] left. *)
Definition last_unit : Store :=
{| health_plans := {[ "basic" := basic ]};
   patients := {[ u1 := patient50 ]};
   purchases := {[ u1 := {[ "p1" := purchase 1000 1 2 ]} ]} |}.

Definition cancel_cus_1 : Subscription :=
{| sub_client_reference_id := Some u1; sub_customer := "cus_1";
   cancel_at_period_end := true |}.

(** A provider that accepts no signature and opens no session. *)
Definition no_event (_ : string) (_ : option string) : string + Event :=
inl "No signatures found matching the expected signature for payload".

Definition no_checkout (_ : CheckoutParams) : string + (string * string) :=
inl "unavailable".

Definition no_portal (_ : string) : string + string := inl "unavailable".

End Demo.

(** ** Deliveries the webhook handles to the end *)


Definition received : Response := {| status := 200; body := JsonReceived |}.

(** ** What the checkout route hands to the payment provider *)



(** The answer of the portal route to anything that throws. *)
Definition portal_failed : Response :=
  {| status := 500; body := JsonError "Failed to create customer portal" |}.


(** ** What stays of a purchase *)


(** The subscriber documents of [s'] are those of [s], with the customer
    reference each had. *)
Definition same_subscribers (s s' : Store) : Prop :=
  ∀ k, match patients s !! k, patients s' !! k with
       | Some data, Some data' => stripeCustomerId data' = stripeCustomerId data
       | None, None => True
       | _, _ => False
       end.

(** ** What a listing says about a claim *)

(** The answer [useClaim] gives for claim [c], read off the list that
    [getClaims] returned: 404 when no entry has the name, 403 when one of
    the entries with the name is used up, 200 otherwise. *)
Definition answer_from_listing (c : string) (cl : list ClaimEntry) : Response :=
  match filter (λ e, ce_name e = c) cl with
  | [] => claim_not_found
  | named =>
      if existsb (λ e, (ce_used e + 1 >? ce_limit e)%Z) named
      then limit_reached else claim_incremented
  end.

(** ** The page that is served with the functions *)

(** The script of the claims page: it loads the subscriber's claims and
    points from [getClaims], shows one button per claim and one per
    amount of points that can be redeemed, and sends a press of a button
    to [useClaim] or [redeemPoints].  The id is put into the address of
    [getClaims] as it is; ids are taken to need no escaping there. *)
Module Page.






(** [incrementClaim(patientId, claimName)]: the request it sends. *)
Definition incrementClaim (patientId claimName : string) : UseClaimReq :=
  {| uc_method := POST; uc_patientId := Some patientId;
     uc_claimName := Some claimName |}.

(** [redeemPoints(patientId, pointsToRedeem)]: the request it sends, if
    any. *)
Definition redeemPoints (patientId : string) (pointsToRedeem : Z)
  : option RedeemReq :=
  if pointsToRedeem <=? 0 then None
  else Some {| rp_method := POST; rp_patientId := Some patientId;
               rp_pointsToRedeem := Some pointsToRedeem |}.

End Page.

(** ** More example data *)

Module Cases.

Definition april : Clock := {| getFullYear := 2025; getMonth := 3; now := 5000 |}.

Definition resume_cus_1 : Subscription :=
{| sub_client_reference_id := Some Demo.u1; sub_customer := "cus_1";
   cancel_at_period_end := false |}.

(** A provider that verifies any signed delivery and reads the event off
    the body. *)
Definition events (rawBody : string) (signature : option string)
  : string + Event :=
match signature with
| None => inl "No stripe-signature header value was provided."
| Some _ =>
    if decide (rawBody = "checkout")
    then inr (CheckoutSessionCompleted Demo.checkout_session)
    else if decide (rawBody = "cancel")
    then inr (CustomerSubscriptionUpdated Demo.cancel_cus_1)
    else if decide (rawBody = "resume")
    then inr (CustomerSubscriptionUpdated resume_cus_1)
    else inr (OtherEvent rawBody)
end.

Definition delivery (rawBody : string) : WebhookReq :=
{| rawBody := rawBody; stripe_signature := Some "t=1,v1=5257a869" |}.

(** A provider that opens every session. *)
Definition sessions (ps : CheckoutParams) : string + (string * string) :=
inr ("cs_1", "https://checkout.example/" +:+ cp_price ps).

Definition portal (customerId : string) : string + string :=
inr ("https://billing.example/" +:+ customerId).

(** The subscriber document of [u1] is missing; the purchase is there. *)
Definition no_subscriber : Store :=
{| health_plans := health_plans Demo.s1;
   patients := ∅;
   purchases := purchases Demo.s1 |}.

End Cases.

(** * Theorems *)

(** ** The monad, step by step *)

Ltac mstep :=
  repeat progress
    (cbv beta iota zeta delta
       [run response_of store_after accesses_of status_of
        bind ret throw try_catch detached send access getStore putStore docId
        getPatient getPlan getPatients queryPlanByProduct
        queryPurchaseByCustomer queryPurchaseByPlan queryPurchasesNewestFirst
        updatePatient addPurchase updateClaim
        useClaim_after_get redeemPoints_after_get internal_error];
     cbn [fst snd db log resp take app]).

Lemma normalizeId_truthy id : JS.truthy (normalizeId id) = true.
Proof. unfold normalizeId. by destruct (JS.trim id). Qed.

Lemma claim_at_default p K c :
  default ∅ (claims p !! K) !! c = claim_at p K c.
Proof. unfold claim_at. by destruct (claims p !! K). Qed.

Lemma js_get_Own p K c d :
  claim_at p K c = Some d → js_get (default ∅ (claims p !! K)) c = Own d.
Proof. intros H. unfold js_get. by rewrite claim_at_default, H. Qed.

Lemma js_get_None p K c :
  claim_at p K c = None →
  js_get (default ∅ (claims p !! K)) c
  = if bool_decide (c ∈ inherited_names) then Inherited else Undefined.
Proof. intros H. unfold js_get. by rewrite claim_at_default, H. Qed.

(** ** Lookups after a write *)

Lemma purchasesOf_setPurchase s k id p k' id' :
  purchasesOf (setPurchase k id p s) k' !! id'
  = if decide (k' = k ∧ id' = id) then Some p else purchasesOf s k' !! id'.
Proof.
  unfold purchasesOf at 1, setPurchase. simpl.
  destruct (decide (k' = k)) as [->|Hk].
  - rewrite lookup_insert_eq. simpl.
    destruct (decide (id' = id)) as [->|Hid].
    + rewrite lookup_insert_eq. by rewrite decide_True.
    + rewrite lookup_insert_ne by done. rewrite decide_False by (by intros [? ?]). done.
  - rewrite lookup_insert_ne by done. rewrite decide_False by (by intros [? ?]). done.
Qed.

Lemma entry_setPurchase s k id p k' id' K c :
  entry (setPurchase k id p s) k' id' K c
  = if decide (k' = k ∧ id' = id) then claim_at p K c else entry s k' id' K c.
Proof.
  unfold entry. rewrite purchasesOf_setPurchase. by case_decide.
Qed.

Lemma claim_at_set_claim K c d p K' c' :
  claim_at (set_claim K c d p) K' c'
  = if decide (K' = K ∧ c' = c) then Some d else claim_at p K' c'.
Proof.
  unfold claim_at, set_claim. simpl.
  destruct (decide (K' = K)) as [->|HK].
  - rewrite lookup_insert_eq. simpl.
    destruct (decide (c' = c)) as [->|Hc].
    + rewrite lookup_insert_eq. by rewrite decide_True.
    + rewrite lookup_insert_ne by done. rewrite decide_False by (by intros [? ?]).
      by destruct (claims p !! K).
  - rewrite lookup_insert_ne by done. rewrite decide_False by (by intros [? ?]). done.
Qed.

Lemma claim_at_bump K c p K' c' :
  claim_at (bump K c p) K' c'
  = if decide (K' = K ∧ c' = c)
    then (λ d, {| used := used d + 1; limit := limit d |}) <$> claim_at p K c
    else claim_at p K' c'.
Proof.
  unfold bump. destruct (claim_at p K c) as [d|] eqn:E.
  - rewrite claim_at_set_claim. by case_decide.
  - case_decide as H; [|done]. destruct H as [-> ->]. by rewrite E.
Qed.

(** ** The loop of [useClaim] *)

Lemma useClaim_each_spec k K c found id p w :
  purchasesOf (db w) k !! id = Some p →
  useClaim_each k K c found (id, p) w
  = (Done (found || hit K c (id, p)),
     {| db := if grants K c p && field_segment c
              then setPurchase k id (bump K c p) (db w) else db w;
        log := log w ++ writes_of k K c [(id, p)];
        resp := resp_after K c [(id, p)] (resp w) |}).
Proof.
  intros Hp. destruct w as [s lg r].
  unfold useClaim_each, writes_of, resp_after, hit, holds, grants, refuses, bump.
  cbn [fst snd db log resp existsb].
  rewrite filter_cons, filter_nil. cbn [fst snd].
  destruct (claim_at p K c) as [d|] eqn:Hd.
  - rewrite (js_get_Own _ _ _ _ Hd). fold (at_limit d).
    destruct (at_limit d) eqn:Hlim; cbn [negb andb orb].
    + rewrite decide_False by (cbn; tauto). mstep.
      destruct r; cbn; by rewrite ?app_nil_r, ?orb_true_r.
    + destruct (field_segment c) eqn:Hseg.
      * rewrite decide_True by (cbn; tauto). mstep. rewrite Hseg. cbn [negb].
        mstep. cbn in Hp. rewrite Hp. mstep.
        rewrite orb_true_r. by destruct r.
      * rewrite decide_False by (cbn; tauto). mstep. rewrite Hseg. cbn [negb].
        rewrite app_nil_r, orb_true_r. by destruct r.
  - rewrite (js_get_None _ _ _ Hd). cbn [andb orb].
    rewrite decide_False by (cbn; tauto). cbn. rewrite app_nil_r.
    destruct (bool_decide (c ∈ inherited_names)); mstep;
      rewrite ?orb_true_r, ?orb_false_r; by destruct r.
Qed.

Lemma writes_of_cons k K c doc l :
  writes_of k K c (doc :: l) = writes_of k K c [doc] ++ writes_of k K c l.
Proof.
  unfold writes_of. rewrite !filter_cons, filter_nil.
  by case_decide.
Qed.

Lemma resp_after_cons K c doc l r :
  resp_after K c (doc :: l) r = resp_after K c l (resp_after K c [doc] r).
Proof.
  unfold resp_after. destruct r as [r|]; [done|]. cbn [existsb].
  rewrite orb_false_r. by destruct (refuses K c doc.2).
Qed.

Lemma forEach_found_spec k K c l :
  NoDup l.*1 → ∀ found w,
  (∀ id p, (id, p) ∈ l → purchasesOf (db w) k !! id = Some p) →
  ∃ s',
    forEach_found k K c l found w
    = (Done (found || existsb (hit K c) l),
       {| db := s'; log := log w ++ writes_of k K c l;
          resp := resp_after K c l (resp w) |})
    ∧ health_plans s' = health_plans (db w)
    ∧ patients s' = patients (db w)
    ∧ (∀ k', k' ≠ k → purchases s' !! k' = purchases (db w) !! k')
    ∧ (∀ id, purchasesOf s' k !! id
             = if decide (id ∈ l.*1)
               then upd K c <$> purchasesOf (db w) k !! id
               else purchasesOf (db w) k !! id)
    ∧ (filter (λ doc, grants K c doc.2 && field_segment c) l = [] → s' = db w).
Proof.
  induction l as [|[id p] l IH]; intros Hnd found w Hl.
  - exists (db w). destruct w as [s lg r]. cbn.
    rewrite orb_false_r, app_nil_r.
    split_and!; try done. by destruct r.
  - apply NoDup_cons in Hnd as [Hid Hnd]. cbn [fmap list_fmap fst] in Hid.
    assert (purchasesOf (db w) k !! id = Some p) as Hp
      by (apply Hl; left).
    cbn [forEach_found]. unfold bind at 1.
    rewrite (useClaim_each_spec _ _ _ _ _ _ _ Hp).
    set (s1 := if grants K c p && field_segment c
               then setPurchase k id (bump K c p) (db w) else db w).
    set (w1 := {| db := s1; log := _; resp := _ |}).
    assert (∀ k' id', purchasesOf s1 k' !! id'
                      = if decide (k' = k ∧ id' = id) then Some (upd K c p)
                        else purchasesOf (db w) k' !! id') as Hs1.
    { intros k' id'. subst s1. unfold upd.
      destruct (grants K c p && field_segment c).
      - apply purchasesOf_setPurchase.
      - case_decide as H; [|done]. destruct H as [-> ->]. done. }
    destruct (IH Hnd (found || hit K c (id, p)) w1) as (s' & Hrun & Hpl & Hpa & Hk' & Hk & Hsame).
    { intros id' p' Hin. cbn [db w1]. rewrite Hs1.
      rewrite decide_False; [by apply Hl; right|].
      intros [_ ->]. apply Hid. apply list_elem_of_fmap. by exists (id, p'). }
    exists s'. rewrite Hrun. cbn [db log resp w1] in *.
    split_and!.
    + rewrite (writes_of_cons _ _ _ (id, p) l), (resp_after_cons _ _ (id, p) l).
      rewrite <- app_assoc. cbn [existsb]. by rewrite orb_assoc.
    + rewrite Hpl. subst s1. by destruct (grants K c p && field_segment c).
    + rewrite Hpa. subst s1. by destruct (grants K c p && field_segment c).
    + intros k' Hne. rewrite Hk' by done. subst s1.
      destruct (grants K c p && field_segment c); [|done].
      cbn. by rewrite lookup_insert_ne.
    + intros id'. rewrite Hk, !Hs1. cbn [fmap list_fmap fst].
      destruct (decide (id' = id)) as [->|Hne].
      * rewrite (decide_False (P := id ∈ l.*1)) by done.
        rewrite decide_True by done.
        rewrite decide_True by (left). by rewrite Hp.
      * rewrite (decide_False (P := k = k ∧ id' = id)) by (by intros [_ ?]).
        destruct (decide (id' ∈ l.*1)) as [Hin|Hnin].
        -- by rewrite decide_True by (by right).
        -- rewrite decide_False; [done|]. intros [?|?]%elem_of_cons; done.
    + rewrite filter_cons. cbn [snd]. intros Hf.
      case_decide as Hg; [done|].
      rewrite Hsame by done. subst s1.
      by destruct (grants K c p && field_segment c).
Qed.

(** ** The snapshot [useClaim] and [getClaims] iterate over *)

Lemma orderBy_Permutation (m : gmap string Purchase) :
  orderBy_purchased_at_desc m ≡ₚ map_to_list m.
Proof. apply merge_sort_Permutation. Qed.

Lemma orderBy_NoDup (m : gmap string Purchase) :
  NoDup (orderBy_purchased_at_desc m).*1.
Proof.
  rewrite orderBy_Permutation. apply NoDup_fst_map_to_list.
Qed.

Lemma elem_of_orderBy (m : gmap string Purchase) id p :
  (id, p) ∈ orderBy_purchased_at_desc m ↔ m !! id = Some p.
Proof.
  rewrite orderBy_Permutation. apply elem_of_map_to_list.
Qed.

Lemma elem_of_orderBy_fst (m : gmap string Purchase) id :
  id ∈ (orderBy_purchased_at_desc m).*1 ↔ is_Some (m !! id).
Proof.
  rewrite list_elem_of_fmap. split.
  - intros ([id' p] & -> & Hin). apply elem_of_orderBy in Hin. by eexists.
  - intros [p Hp]. exists (id, p). split; [done|]. by apply elem_of_orderBy.
Qed.

Lemma string_compare_le_trans s1 : ∀ s2 s3,
  String.compare s1 s2 ≠ Gt → String.compare s2 s3 ≠ Gt →
  String.compare s1 s3 ≠ Gt.
Proof.
  induction s1 as [|a s1 IH]; intros [|b s2] [|c s3]; cbn; try done.
  unfold Ascii.compare.
  destruct (N.compare_spec (N_of_ascii a) (N_of_ascii b)) as [Hab|Hab|Hab];
    destruct (N.compare_spec (N_of_ascii b) (N_of_ascii c)) as [Hbc|Hbc|Hbc];
    try done.
  - rewrite Hab, Hbc, N.compare_refl. apply IH.
  - intros _ _. rewrite Hab. by rewrite (proj2 (N.compare_lt_iff _ _) Hbc).
  - intros _ _. rewrite <- Hbc. by rewrite (proj2 (N.compare_lt_iff _ _) Hab).
  - intros _ _. assert (N_of_ascii a < N_of_ascii c)%N as H by lia.
    by rewrite (proj2 (N.compare_lt_iff _ _) H).
Qed.

Lemma string_leb_trans s1 s2 s3 :
  String.leb s1 s2 = true → String.leb s2 s3 = true → String.leb s1 s3 = true.
Proof.
  unfold String.leb. intros H1 H2.
  pose proof (string_compare_le_trans s1 s2 s3) as H.
  destruct (String.compare s1 s2), (String.compare s2 s3),
    (String.compare s1 s3); try done; exfalso; by apply H.
Qed.

Global Instance newest_first_total : Total newest_first.
Proof.
  intros [i p] [j q]. unfold newest_first, newer. cbn [fst snd].
  destruct (Z.lt_trichotomy (purchased_at p) (purchased_at q)) as [H|[H|H]].
  - right. by assert ((purchased_at p <? purchased_at q) = true) as -> by lia.
  - rewrite H, Z.ltb_irrefl, Z.eqb_refl. cbn.
    destruct (String.leb_total i j) as [->| ->]; [by right|by left].
  - left. by assert ((purchased_at q <? purchased_at p) = true) as -> by lia.
Qed.

Global Instance newest_first_trans : Transitive newest_first.
Proof.
  intros [i p] [j q] [k r]. unfold newest_first, newer. cbn [fst snd].
  intros H1 H2. apply Is_true_true in H1, H2. apply Is_true_true.
  apply orb_true_iff in H1 as [H1|[H1 L1]%andb_true_iff];
    apply orb_true_iff in H2 as [H2|[H2 L2]%andb_true_iff];
    apply orb_true_iff.
  - left. lia.
  - left. lia.
  - left. lia.
  - right. apply andb_true_iff. split; [lia|]. by eapply string_leb_trans.
Qed.

(** The snapshot is in the order of the query: newest purchase first. *)
Lemma orderBy_sorted (m : gmap string Purchase) :
  StronglySorted newest_first (orderBy_purchased_at_desc m).
Proof. apply (StronglySorted_merge_sort _). Qed.

Lemma existsb_orderBy (f : Purchase → bool) (m : gmap string Purchase) :
  existsb (λ doc, f doc.2) (orderBy_purchased_at_desc m) = true
  ↔ ∃ id p, m !! id = Some p ∧ f p = true.
Proof.
  rewrite existsb_exists. split.
  - intros ([id p] & Hin & Hf). apply list_elem_of_In, elem_of_orderBy in Hin.
    by exists id, p.
  - intros (id & p & Hin & Hf). exists (id, p). split; [|done].
    by apply list_elem_of_In, elem_of_orderBy.
Qed.

(** ** [useClaim], one call *)

Lemma refuses_hit K c (l : list (string * Purchase)) :
  existsb (hit K c) l = false → existsb (λ doc, refuses K c doc.2) l = false.
Proof.
  induction l as [|doc l IH]; [done|]. cbn [existsb].
  intros [H1 H2]%orb_false_elim. rewrite (IH H2), orb_false_r.
  unfold hit, holds in H1. apply orb_false_elim in H1 as [H1 _].
  unfold refuses. by destruct (claim_at doc.2 K c).
Qed.

Lemma useClaim_run clock id c s :
  JS.truthy c = true →
  let k := normalizeId id in
  let K := claimsKey clock in
  let l := orderBy_purchased_at_desc (purchasesOf s k) in
  ∃ o s',
    run (useClaim clock {| uc_method := POST; uc_patientId := Some id;
                           uc_claimName := Some c |}) s
    = (o, {| db := s'; log := Read (PurchasesColl k) :: writes_of k K c l;
             resp := Some (useClaim_response K c l) |})
    ∧ health_plans s' = health_plans s
    ∧ patients s' = patients s
    ∧ (∀ k', k' ≠ k → purchases s' !! k' = purchases s !! k')
    ∧ (∀ pid, purchasesOf s' k !! pid = upd K c <$> purchasesOf s k !! pid)
    ∧ (filter (λ doc, grants K c doc.2 && field_segment c) l = [] → s' = s).
Proof.
  intros Hc k K l.
  unfold useClaim, run. cbn [uc_method uc_patientId uc_claimName is_POST negb].
  rewrite normalizeId_truthy, Hc. cbn [negb orb].
  fold k K. unfold try_catch, bind at 1.
  unfold queryPurchasesNewestFirst. mstep. fold l.
  set (w0 := {| db := s; log := _; resp := None |}).
  destruct (forEach_found_spec k K c l (orderBy_NoDup _) false w0)
    as (s' & Hrun & Hpl & Hpa & Hk' & Hk & Hsame).
  { intros pid p Hin. by apply elem_of_orderBy in Hin. }
  rewrite Hrun. cbn [db log resp w0 orb app] in *.
  assert (∀ pid, purchasesOf s' k !! pid = upd K c <$> purchasesOf s k !! pid)
    as Hk2.
  { intros pid. rewrite Hk. case_decide as Hin; [done|].
    destruct (purchasesOf s k !! pid) eqn:E; [|done].
    exfalso. apply Hin, elem_of_orderBy_fst. by eexists. }
  unfold useClaim_response, resp_after.
  destruct (existsb (hit K c) l) eqn:Hhit; cbn [negb].
  - destruct (existsb (λ doc, refuses K c doc.2) l) eqn:Href; mstep;
      eexists _, s'; split_and!; done.
  - rewrite (refuses_hit _ _ _ Hhit). mstep.
    eexists _, s'; split_and!; done.
Qed.

Lemma useClaim_other clock req s :
  (∀ id c, req = {| uc_method := POST; uc_patientId := Some id;
                    uc_claimName := Some c |} → JS.truthy c = false) →
  store_after (useClaim clock req) s = s
  ∧ accesses_of (useClaim clock req) s = []
  ∧ answered 200 (response_of (useClaim clock req) s) = false
  ∧ answered 403 (response_of (useClaim clock req) s) = false
  ∧ answered 404 (response_of (useClaim clock req) s) = false.
Proof.
  intros H. destruct req as [m [id|] [c|]]; unfold useClaim;
    cbn [uc_method uc_patientId uc_claimName];
    destruct m; cbn [is_POST negb]; try (by mstep).
  rewrite normalizeId_truthy, (H id c eq_refl). by mstep.
Qed.

(** ** [getClaims], [redeemPoints] and the Express routes, one call *)

Lemma getClaims_run clock req s :
  store_after (getClaims clock req) s = s
  ∧ Forall (λ a, is_read a = true) (accesses_of (getClaims clock req) s).
Proof.
  destruct req as [[id|]]; unfold getClaims; cbn [gc_patientId];
    [|by mstep].
  rewrite normalizeId_truthy. cbn [negb]. mstep.
  destruct (patients s !! normalizeId id); mstep;
    split; try done; repeat constructor.
Qed.

Lemma redeemPoints_run s id amount data :
  0 < amount → patients s !! normalizeId id = Some data →
  let c := redeemPoints {| rp_method := POST; rp_patientId := Some id;
                           rp_pointsToRedeem := Some amount |} in
  (points_or_0 data < amount →
     response_of c s = Some redeem_short ∧ store_after c s = s)
  ∧ (amount ≤ points_or_0 data →
     response_of c s = Some redeem_ok
     ∧ store_after c s
       = setPatient (normalizeId id)
           (set_points (points_or_0 data - amount) data) s).
Proof.
  intros Hpos Hdata c. subst c. unfold redeemPoints.
  cbn [rp_method rp_patientId rp_pointsToRedeem is_POST negb].
  rewrite normalizeId_truthy.
  assert ((amount =? 0) = false) as -> by lia.
  assert ((amount <=? 0) = false) as -> by lia.
  cbn [negb orb]. mstep. rewrite Hdata.
  split; intros H.
  - assert ((points_or_0 data <? amount) = true) as -> by lia. by mstep.
  - assert ((points_or_0 data <? amount) = false) as -> by lia.
    mstep. rewrite Hdata. by mstep.
Qed.

Lemma redeemPoints_cases req s :
  (∃ id amount data,
      req = {| rp_method := POST; rp_patientId := Some id;
               rp_pointsToRedeem := Some amount |}
      ∧ 0 < amount ∧ patients s !! normalizeId id = Some data
      ∧ amount ≤ points_or_0 data
      ∧ response_of (redeemPoints req) s = Some redeem_ok
      ∧ store_after (redeemPoints req) s
        = setPatient (normalizeId id)
            (set_points (points_or_0 data - amount) data) s)
  ∨ (answered 200 (response_of (redeemPoints req) s) = false
     ∧ store_after (redeemPoints req) s = s).
Proof.
  destruct req as [m [id|] [amount|]];
    try (right; unfold redeemPoints;
         cbn [rp_method rp_patientId rp_pointsToRedeem];
         destruct m; cbn [is_POST negb]; by mstep).
  destruct (decide (m = POST)) as [->|Hm];
    [|right; unfold redeemPoints;
      cbn [rp_method rp_patientId rp_pointsToRedeem];
      destruct m; cbn [is_POST negb]; by mstep].
  destruct (decide (0 < amount)) as [Hpos|Hneg].
  - destruct (patients s !! normalizeId id) as [data|] eqn:Hdata.
    + destruct (redeemPoints_run s id amount data Hpos Hdata) as [Hlt Hge].
      destruct (decide (amount ≤ points_or_0 data)) as [Hle|Hgt].
      * left. exists id, amount, data. destruct (Hge Hle). by split_and!.
      * right. destruct Hlt as [-> ->]; [lia|done].
    + right. unfold redeemPoints.
      cbn [rp_method rp_patientId rp_pointsToRedeem is_POST negb].
      rewrite normalizeId_truthy.
      assert ((amount =? 0) = false) as -> by lia.
      assert ((amount <=? 0) = false) as -> by lia.
      cbn [negb orb]. mstep. rewrite Hdata. by mstep.
  - right. unfold redeemPoints.
    cbn [rp_method rp_patientId rp_pointsToRedeem is_POST negb].
    rewrite normalizeId_truthy. cbn [negb orb].
    assert ((amount <=? 0) = true) as -> by lia.
    rewrite orb_true_r. by mstep.
Qed.

(** ** The webhook, one event *)

Lemma handleCheckoutSessionCompleted_run clock autoId session s :
  let c := handleCheckoutSessionCompleted clock autoId session in
  (∃ pid uid plan,
      metadata_planId session = Some pid ∧ pid ≠ ""
      ∧ client_reference_id session = Some uid ∧ uid ≠ ""
      ∧ health_plans s !! pid = Some plan
      ∧ purchasesOf s uid !! autoId = None
      ∧ run c s
        = (Done (),
           {| db := setPurchase uid autoId
                      (newPurchase clock pid (customer session) plan) s;
              log := [Read (PlanDoc pid); Read (PatientDoc uid);
                      Write (PurchaseDoc uid autoId)];
              resp := None |}))
  ∨ (∃ msg lg, run c s = (Throw msg, {| db := s; log := lg; resp := None |})).
Proof.
  intros c. subst c. unfold handleCheckoutSessionCompleted.
  destruct session as [[uid|] [pid|] cust];
    cbn [client_reference_id metadata_planId customer];
    try (destruct pid); try (by right; mstep; eauto).
  destruct uid; [by right; mstep; eauto|]. mstep.
  destruct (health_plans s !! _) as [plan|] eqn:Hplan;
    [|by right; mstep; eauto].
  mstep.
  destruct (purchasesOf s _ !! autoId) eqn:Hfresh;
    [by right; mstep; eauto|].
  left. eexists _, _, plan. by split_and!.
Qed.

Lemma handleSubscriptionUpdated_run sub s :
  let c := handleSubscriptionUpdated sub in
  (∃ uid, sub_client_reference_id sub = Some uid ∧ uid ≠ ""
      ∧ let found := filter (λ d, p_stripeCustomerId d.2 = sub_customer sub)
                       (docs (purchasesOf s uid)) in
        (found = []
          ∧ run c s = (Done (), {| db := s; log := [Read (PurchasesColl uid)];
                                   resp := None |}))
        ∨ (found ≠ []
          ∧ ∃ data, patients s !! uid = Some data
          ∧ run c s
            = (Done (),
               {| db := setPatient uid
                          (set_subscription_status
                             (if cancel_at_period_end sub
                              then "inactive" else "active") data) s;
                  log := [Read (PurchasesColl uid); Write (PatientDoc uid)];
                  resp := None |})))
  ∨ (∃ msg lg, run c s = (Throw msg, {| db := s; log := lg; resp := None |})).
Proof.
  intros c. subst c. unfold handleSubscriptionUpdated.
  destruct sub as [[uid|] cust cancel];
    cbn [sub_client_reference_id sub_customer cancel_at_period_end];
    [|by right; mstep; eauto].
  destruct uid as [|a uid]; [by right; mstep; eauto|].
  mstep.
  destruct (filter _ (docs (purchasesOf s (String a uid)))) as [|doc l] eqn:Hf.
  - left. eexists. split_and!; try done. left. by mstep.
  - cbn [take].
    destruct (patients s !! String a uid) as [data|] eqn:Hdata.
    + left. eexists. split_and!; try done. right. split; [by rewrite Hf|].
      exists data. split; [done|].
      destruct cancel; mstep; rewrite Hdata; by mstep.
    + right. destruct cancel; mstep; rewrite Hdata; mstep; eauto.
Qed.

Section WebhookFacts.

Variable constructEvent : string → option string → string + Event.

Lemma stripeWebhook_store clock autoId req s :
  let s' := store_after (stripeWebhook constructEvent clock autoId req) s in
  s' = s
  ∨ (∃ uid pid plan cust,
        health_plans s !! pid = Some plan
        ∧ purchasesOf s uid !! autoId = None
        ∧ s' = setPurchase uid autoId (newPurchase clock pid cust plan) s)
  ∨ (∃ uid data v,
        patients s !! uid = Some data
        ∧ s' = setPatient uid (set_subscription_status v data) s).
Proof.
  intros s'. subst s'. unfold stripeWebhook.
  destruct (constructEvent _ _) as [msg|[session|sub|sub|ty]];
    try (by left; mstep).
  - destruct (handleCheckoutSessionCompleted_run clock autoId session s)
      as [(pid & uid & plan & _ & _ & _ & _ & Hplan & Hfresh & Hrun)
         |(msg & lg & Hrun)];
      unfold store_after, bind; unfold run in *; rewrite Hrun; mstep.
    + right; left. by exists uid, pid, plan, (customer session).
    + by left.
  - destruct (handleSubscriptionUpdated_run sub s)
      as [(uid & _ & _ & [[_ Hrun]|(_ & data & Hdata & Hrun)])
         |(msg & lg & Hrun)];
      unfold store_after, bind; unfold run in *; rewrite Hrun; mstep.
    + by left.
    + right; right. by eexists uid, data, _.
    + by left.
Qed.

End WebhookFacts.

Section RouteFacts.

Variable checkout_sessions_create : CheckoutParams → string + (string * string).
Variable billingPortal_sessions_create : string → string + string.

Lemma createCheckoutSession_store req s :
  store_after (createCheckoutSession checkout_sessions_create req) s = s.
Proof.
  unfold createCheckoutSession.
  destruct req as [[[|a planId]|] [|[]|[|b userId]]];
    cbn [co_planId co_userId]; try (by mstep).
  mstep. destruct (take 1 _) as [|planDoc ?]; [by mstep|].
  mstep. destruct (patients s !! _); [|by mstep].
  destruct (checkout_sessions_create _); by mstep.
Qed.

Lemma createCustomerPortal_store req s :
  store_after (createCustomerPortal billingPortal_sessions_create req) s = s.
Proof.
  unfold createCustomerPortal.
  destruct req as [[userId|] planId]; cbn [po_userId po_planId];
    [|by mstep].
  rewrite normalizeId_truthy. cbn [negb orb].
  destruct (JS.truthy_opt planId); cbn [negb]; [|by mstep].
  mstep. destruct (patients s !! _); [|by mstep].
  mstep. destruct (take 1 _) as [|doc ?]; cbn [JS.truthy negb]; [by mstep|].
  destruct (JS.truthy _); cbn [negb]; [|by mstep].
  destruct (billingPortal_sessions_create _); by mstep.
Qed.

End RouteFacts.

(** ** The claims a checkout records *)





Lemma filter_none {A} (P : A → Prop) `{∀ x, Decision (P x)} (l : list A) :
  (∀ x, x ∈ l → ¬ P x) → filter P l = [].
Proof.
  induction l as [|x l IH]; intros Hl; [done|].
  rewrite filter_cons, decide_False by (apply Hl; left).
  apply IH. intros y Hy. apply Hl. by right.
Qed.



(** ** [useClaim], any request *)

Lemma useClaim_cases clock req s :
  (∃ id c,
      req = {| uc_method := POST; uc_patientId := Some id;
               uc_claimName := Some c |}
      ∧ JS.truthy c = true
      ∧ let k := normalizeId id in
        let K := claimsKey clock in
        let l := orderBy_purchased_at_desc (purchasesOf s k) in
        let s' := store_after (useClaim clock req) s in
        response_of (useClaim clock req) s = Some (useClaim_response K c l)
        ∧ accesses_of (useClaim clock req) s
          = Read (PurchasesColl k) :: writes_of k K c l
        ∧ health_plans s' = health_plans s
        ∧ patients s' = patients s
        ∧ (∀ k', k' ≠ k → purchases s' !! k' = purchases s !! k')
        ∧ (∀ pid, purchasesOf s' k !! pid = upd K c <$> purchasesOf s k !! pid)
        ∧ (filter (λ doc, grants K c doc.2 && field_segment c) l = [] → s' = s))
  ∨ (store_after (useClaim clock req) s = s
     ∧ accesses_of (useClaim clock req) s = []
     ∧ answered 200 (response_of (useClaim clock req) s) = false
     ∧ answered 403 (response_of (useClaim clock req) s) = false
     ∧ answered 404 (response_of (useClaim clock req) s) = false).
Proof.
  destruct req as [m [id|] [c|]];
    try (right; apply useClaim_other; by intros ? ? [=]).
  destruct (decide (m = POST)) as [->|Hm];
    [|right; apply useClaim_other; intros ? ? [=]; by subst].
  destruct (JS.truthy c) eqn:Hc;
    [|right; apply useClaim_other; intros ? ? [=]; by subst].
  left. exists id, c. split; [done|]. split; [done|].
  destruct (useClaim_run clock id c s Hc)
    as (o & s' & Hrun & Hpl & Hpa & Hk' & Hk & Hsame).
  unfold response_of, store_after, accesses_of. rewrite Hrun.
  cbn [snd db log resp]. by split_and!.
Qed.

Lemma purchasesOf_ext s s' k :
  purchases s' !! k = purchases s !! k → purchasesOf s' k = purchasesOf s k.
Proof. unfold purchasesOf. by intros ->. Qed.




(** ** One request, any kind *)

Section ServerFacts.

Variable constructEvent : string → option string → string + Event.
Variable checkout_sessions_create : CheckoutParams → string + (string * string).
Variable billingPortal_sessions_create : string → string + string.

Local Abbreviation handle' :=
  (handle constructEvent checkout_sessions_create billingPortal_sessions_create).
Local Abbreviation serve' :=
  (serve constructEvent checkout_sessions_create billingPortal_sessions_create).

Lemma step_plans r s :
  health_plans (store_after (handle' r) s) = health_plans s.
Proof.
  destruct r as [clock autoId req|req|req|clock req|clock req|req];
    cbn [handle].
  - destruct (stripeWebhook_store constructEvent clock autoId req s)
      as [->|[(?&?&?&?&?&?&->)|(?&?&?&?&->)]]; done.
  - by rewrite createCheckoutSession_store.
  - by rewrite createCustomerPortal_store.
  - by destruct (getClaims_run clock req s) as [-> _].
  - destruct (useClaim_cases clock req s)
      as [(?&?&?&?&?&?&?&?&?)|[-> _]]; done.
  - destruct (redeemPoints_cases req s)
      as [(?&?&?&?&?&?&?&?&->)|[_ ->]]; done.
Qed.




(** ** Requests served one after another *)




End ServerFacts.

(** ** Checking the invariants of a given database *)



(** ** The claims *)







(** ** What a granted [useClaim] changes *)

Lemma status_200_granted K c (l : list (string * Purchase)) :
  status (useClaim_response K c l) = 200 →
  existsb (hit K c) l = true
  ∧ existsb (λ doc, refuses K c doc.2) l = false.
Proof.
  unfold useClaim_response.
  destruct (existsb (hit K c) l); [|done].
  by destruct (existsb _ l).
Qed.

Lemma no_refusal_grants s k K c pid p d :
  existsb (λ doc, refuses K c doc.2)
    (orderBy_purchased_at_desc (purchasesOf s k)) = false →
  purchasesOf s k !! pid = Some p → claim_at p K c = Some d →
  at_limit d = false.
Proof.
  intros Hno Hp Hd. destruct (at_limit d) eqn:Hlim; [|done].
  assert (existsb (λ doc, refuses K c doc.2)
            (orderBy_purchased_at_desc (purchasesOf s k)) = true) as Hex.
  { apply existsb_orderBy. exists pid, p. split; [done|].
    unfold refuses. by rewrite Hd. }
  congruence.
Qed.

Lemma existsb_hit K c (l : list (string * Purchase)) :
  bool_decide (c ∈ inherited_names) = false →
  existsb (hit K c) l = existsb (λ doc, holds K c doc.2) l.
Proof.
  intros Hc. induction l as [|doc l IH]; [done|].
  cbn [existsb]. unfold hit at 1. by rewrite Hc, orb_false_r, IH.
Qed.

Lemma hit_holder s k K c :
  bool_decide (c ∈ inherited_names) = false →
  existsb (hit K c) (orderBy_purchased_at_desc (purchasesOf s k)) = true →
  ∃ pid p, purchasesOf s k !! pid = Some p ∧ is_Some (claim_at p K c).
Proof.
  intros Hc Hhit. rewrite (existsb_hit _ _ _ Hc) in Hhit.
  apply existsb_orderBy in Hhit as (pid & p & Hp & Hh).
  exists pid, p. split; [done|]. unfold holds in Hh.
  by destruct (claim_at p K c).
Qed.

Lemma item_name_ok_inv c :
  item_name_ok c = true →
  field_segment c = true ∧ JS.truthy c = true
  ∧ bool_decide (c ∈ inherited_names) = false.
Proof.
  unfold item_name_ok.
  intros [Hseg ?%negb_true_iff]%andb_true_iff.
  split; [done|]. split; [|done].
  unfold field_segment in Hseg. by apply andb_true_iff in Hseg as [? _].
Qed.

(** C2, as the code has it. A [useClaim] call that is answered 200 adds 1
    to the [used] count of the claim in the current month's map of every
    purchase of the subscriber that holds the claim there (each had room
    for it, and at least one holds it), not only in the first such purchase;
    a purchase that does not hold the claim, every other item and month,
    the other fields of the purchases, the purchases of other subscribers,
    the subscriber documents and the plans are unchanged.  With a single
    holder, exactly one field changes. *)
Theorem useClaim_granted_effect
    (clock : Clock) (req : UseClaimReq) (id c : string) (s : Store) :
  uc_patientId req = Some id → uc_claimName req = Some c →
  item_name_ok c = true →
  status_of (useClaim clock req) s = Some 200 →
  let k := normalizeId id in
  let K := claimsKey clock in
  let s' := store_after (useClaim clock req) s in
  health_plans s' = health_plans s
  ∧ patients s' = patients s
  ∧ (∀ k', k' ≠ k → purchasesOf s' k' = purchasesOf s k')
  ∧ (∃ pid p, purchasesOf s k !! pid = Some p ∧ is_Some (claim_at p K c))
  ∧ (∀ pid, purchasesOf s k !! pid = None → purchasesOf s' k !! pid = None)
  ∧ (∀ pid p, purchasesOf s k !! pid = Some p →
       match claim_at p K c with
       | None => purchasesOf s' k !! pid = Some p
       | Some d =>
           used d + 1 ≤ limit d
           ∧ ∃ p', purchasesOf s' k !! pid = Some p'
                   ∧ claim_at p' K c
                     = Some {| used := used d + 1; limit := limit d |}
                   ∧ (∀ K' c', (K', c') ≠ (K, c) →
                        claim_at p' K' c' = claim_at p K' c')
                   ∧ p' = set_claim K c
                            {| used := used d + 1; limit := limit d |} p
       end).
Proof.
  intros Hid Hcn Hok H200 k K s'.
  destruct (item_name_ok_inv c Hok) as (Hseg & Htr & Hinh).
  destruct (useClaim_cases clock req s)
    as [(id0 & c0 & -> & _ & Hresp & _ & Hpl & Hpa & Hk' & Hk & _)
       |(_ & _ & Hno & _)].
  2: { unfold status_of in H200.
       destruct (response_of (useClaim clock req) s) as [r|]; [|done].
       cbn in *. injection H200 as H200. rewrite H200 in Hno. done. }
  cbn in Hid, Hcn. injection Hid as ->. injection Hcn as ->.
  cbv zeta in Hresp. fold k K in Hresp, Hk', Hk.
  unfold status_of in H200. rewrite Hresp in H200.
  cbn [fmap option_fmap option_map] in H200. injection H200 as H200.
  apply status_200_granted in H200 as [Hhit Hnoref].
  split_and!; try done.
  - intros k' Hne. by apply purchasesOf_ext, Hk'.
  - by apply hit_holder.
  - intros pid Hnone. subst s'. by rewrite Hk, Hnone.
  - intros pid p Hp. subst s'. rewrite Hk, Hp.
    cbn [fmap option_fmap option_map]. unfold upd, grants.
    destruct (claim_at p K c) as [d|] eqn:Hd; [|done].
    pose proof (no_refusal_grants s k K c pid p d Hnoref Hp Hd) as Hlim.
    rewrite Hlim, Hseg. cbn [negb andb].
    split; [unfold at_limit in Hlim; lia|].
    eexists. split; [done|]. unfold bump. rewrite Hd. split_and!; [|intros K' c' Hne|done].
    + by rewrite claim_at_set_claim, decide_True.
    + rewrite claim_at_set_claim, decide_False; [done|].
      intros [-> ->]. done.
Qed.

(** The first [useClaim] for [dental] after the checkout. *)
Lemma useClaim_granted_effect_witness :
  let k := normalizeId "u1" in
  let K := claimsKey Demo.march in
  let c := "dental" in
  let s := Demo.s1 in
  let s' := store_after (useClaim Demo.march Demo.use_dental) s in
  health_plans s' = health_plans s
  ∧ patients s' = patients s
  ∧ (∀ k', k' ≠ k → purchasesOf s' k' = purchasesOf s k')
  ∧ (∃ pid p, purchasesOf s k !! pid = Some p ∧ is_Some (claim_at p K c))
  ∧ (∀ pid, purchasesOf s k !! pid = None → purchasesOf s' k !! pid = None)
  ∧ (∀ pid p, purchasesOf s k !! pid = Some p →
       match claim_at p K c with
       | None => purchasesOf s' k !! pid = Some p
       | Some d =>
           used d + 1 ≤ limit d
           ∧ ∃ p', purchasesOf s' k !! pid = Some p'
                   ∧ claim_at p' K c
                     = Some {| used := used d + 1; limit := limit d |}
                   ∧ (∀ K' c', (K', c') ≠ (K, c) →
                        claim_at p' K' c' = claim_at p K' c')
                   ∧ p' = set_claim K c
                            {| used := used d + 1; limit := limit d |} p
       end).
Proof.
  apply (useClaim_granted_effect Demo.march Demo.use_dental "u1" "dental"
           Demo.s1).
  - reflexivity.
  - reflexivity.
  - reflexivity.
  - by vm_compute.
Defined.

(** C2, the claim as stated, at two purchases that both hold the claim:
    the call is answered 200, the first purchase in enumeration order is
    [pB], and the count of the other purchase [pA] goes from 0 to 1 as
    well. *)
Lemma useClaim_increments_second_holder :
  let call := useClaim Demo.march Demo.use_dental in
  let s := Demo.two_holders in
  status_of call s = Some 200
  ∧ (orderBy_purchased_at_desc (purchasesOf s Demo.u1)).*1 = ["pB"; "pA"]
  ∧ entry s Demo.u1 "pB" "claims_2025-03" "dental"
    = Some {| used := 0; limit := 2 |}
  ∧ entry (store_after call s) Demo.u1 "pB" "claims_2025-03" "dental"
    = Some {| used := 1; limit := 2 |}
  ∧ entry s Demo.u1 "pA" "claims_2025-03" "dental"
    = Some {| used := 0; limit := 2 |}
  ∧ entry (store_after call s) Demo.u1 "pA" "claims_2025-03" "dental"
    = Some {| used := 1; limit := 2 |}.
Proof. by vm_compute. Qed.

(** ** When [useClaim] refuses *)





(** ** Subscription updates *)

Lemma elem_of_docs {A} (m : gmap string A) id x :
  (id, x) ∈ docs m ↔ m !! id = Some x.
Proof.
  unfold docs. rewrite merge_sort_Permutation. apply elem_of_map_to_list.
Qed.

Lemma filter_docs_nil {A} (P : string * A → Prop) `{∀ d, Decision (P d)}
    (m : gmap string A) :
  filter P (docs m) = [] ↔ ∀ id x, m !! id = Some x → ¬ P (id, x).
Proof.
  split.
  - intros Hnil id x Hx HP.
    assert ((id, x) ∈ filter P (docs m)) as Hin
      by (apply list_elem_of_filter; split; [done|by apply elem_of_docs]).
    rewrite Hnil in Hin. by inversion Hin.
  - intros Hall. apply filter_none. intros [id x] Hin.
    apply Hall. by apply elem_of_docs.
Qed.




(** ** Reading the claims *)

Lemma elem_of_entries_of (o : gmap string ClaimDetails) e :
  e ∈ entries_of o
  ↔ ∃ d, o !! ce_name e = Some d ∧ ce_used e = used d ∧ ce_limit e = limit d.
Proof.
  unfold entries_of. rewrite list_elem_of_fmap. split.
  - intros ([c d] & -> & Hin). apply elem_of_map_to_list in Hin.
    by exists d.
  - intros (d & Hd & Hu & Hl). exists (ce_name e, d). split.
    + destruct e. cbn in *. by subst.
    + by apply elem_of_map_to_list.
Qed.


(** C9, what the code does. The id is rewritten to [trim(id) + "\n"]
    before the test for an empty id, so the test never fires: [getClaims]
    answers 400 for no request.  With an empty id it reads the subscriber
    document keyed by a lone newline and answers 404, or 200 when such a
    document exists; with no id at all it throws before any response. *)
Theorem getClaims_never_answers_400 (clock : Clock) (s : Store) :
  let empty := getClaims clock {| gc_patientId := Some "" |} in
  let missing := getClaims clock {| gc_patientId := None |} in
  (∀ req, answered 400 (response_of (getClaims clock req) s) = false)
  ∧ head (accesses_of empty s) = Some (Read (PatientDoc NL))
  ∧ status_of empty s
    = Some (match patients s !! NL with Some _ => 200 | None => 404 end)
  ∧ run missing s
    = (Throw TypeError_trim, {| db := s; log := []; resp := None |}).
Proof.
  intros empty missing. split_and!.
  - intros [[id|]]; unfold getClaims; cbn [gc_patientId]; [|by mstep].
    rewrite normalizeId_truthy. cbn [negb]. mstep.
    destruct (patients s !! normalizeId id); by mstep.
  - subst empty. unfold getClaims. cbn [gc_patientId].
    rewrite normalizeId_truthy. cbn [negb]. mstep.
    change (normalizeId "") with NL.
    destruct (patients s !! NL); by mstep.
  - subst empty. unfold getClaims. cbn [gc_patientId].
    rewrite normalizeId_truthy. cbn [negb]. mstep.
    change (normalizeId "") with NL.
    destruct (patients s !! NL); by mstep.
  - done.
Qed.

(** C5, what the code does, on [Demo.s0]. A verified checkout-completion
    event for a plan that does not exist: the handler throws after its two
    reads, the webhook sends no response, and nothing is written.  A
    verified event for a subscriber that does not exist, with an existing
    plan: the webhook answers 200 and a purchase has been written under the
    missing subscriber. *)
Lemma checkout_anomalies_not_swallowed :
  let req := {| rawBody := "{}"; stripe_signature := Some "t=1,v1=00" |} in
  let unknown_plan := λ (_ : string) (_ : option string),
    inr (CheckoutSessionCompleted
           {| client_reference_id := Some Demo.u1;
              metadata_planId := Some "premium"; customer := "cus_1" |})
    : string + Event in
  let ghost := normalizeId "ghost" in
  let unknown_patient := λ (_ : string) (_ : option string),
    inr (CheckoutSessionCompleted
           {| client_reference_id := Some ghost;
              metadata_planId := Some "basic"; customer := "cus_9" |})
    : string + Event in
  let call1 := stripeWebhook unknown_plan Demo.march "p1" req in
  let call2 := stripeWebhook unknown_patient Demo.march "p1" req in
  health_plans Demo.s0 !! "premium" = None
  ∧ run call1 Demo.s0
    = (Throw "Cannot read properties of undefined (reading 'name')",
       {| db := Demo.s0;
          log := [Read (PlanDoc "premium"); Read (PatientDoc Demo.u1)];
          resp := None |})
  ∧ patients Demo.s0 !! ghost = None
  ∧ response_of call2 Demo.s0 = Some {| status := 200; body := JsonReceived |}
  ∧ purchasesOf (store_after call2 Demo.s0) ghost !! "p1"
    = Some (newPurchase Demo.march "basic" "cus_9" Demo.basic)
  ∧ patients (store_after call2 Demo.s0) !! ghost = None.
Proof. split_and!; by vm_compute. Qed.

(** ** Trimming and the document key *)

Lemma trimStart_all_whitespace s :
  all_chars JS.is_whitespace s = true → JS.trimStart s = "".
Proof.
  induction s as [|c s IH]; [done|]. cbn.
  intros [Hc Hs]%andb_true_iff. rewrite Hc. by apply IH.
Qed.


Lemma trimStart_head s c t :
  JS.trimStart s = String c t → JS.is_whitespace c = false.
Proof.
  induction s as [|a s IH]; [done|]. cbn.
  destruct (JS.is_whitespace a) eqn:Ha; [done|]. by intros [= <- _].
Qed.


Lemma trimEnd_head s c t :
  JS.trimEnd s = String c t → ∃ t', s = String c t'.
Proof.
  destruct s as [|a s]; [done|]. cbn.
  destruct (JS.trimEnd s); [destruct (JS.is_whitespace a)|];
    intros [= <- _]; by eexists.
Qed.



Lemma trim_head s c t : JS.trim s = String c t → JS.is_whitespace c = false.
Proof.
  unfold JS.trim. intros (t' & Ht)%trimEnd_head. by eapply trimStart_head.
Qed.





(** ** Two requests at once

    A handler is suspended while it waits for the database, so the reads of
    two requests can both come before the writes of either.  The serving
    order of [serve] does not cover that; the two facts below do, for the
    two endpoints that write what they have read. *)

Lemma ledger_ok_set_claim s k id K c d p :
  ledger_ok s → purchasesOf s k !! id = Some p → used d ≤ limit d →
  ledger_ok (setPurchase k id (set_claim K c d p) s).
Proof.
  intros Hok Hp Hd k' id' K' c' d'. rewrite entry_setPurchase.
  case_decide as Hk; [|apply Hok]. destruct Hk as [-> ->].
  rewrite claim_at_set_claim. case_decide; [by intros [= <-]|].
  intros Hd'. apply (Hok k id K' c'). unfold entry. by rewrite Hp.
Qed.

Lemma useClaim_each_ledger_ok k K c found doc w :
  ledger_ok (db w) → ledger_ok (db (useClaim_each k K c found doc w).2).
Proof.
  intros Hok. destruct w as [s lg r]. unfold useClaim_each.
  destruct (js_get _ c) as [d| |]; [|by mstep|by mstep].
  destruct (used d + 1 >? limit d) eqn:Hlim.
  - mstep. by destruct r.
  - mstep. destruct (field_segment c); cbn [negb]; [|by mstep].
    mstep. destruct (purchasesOf s k !! doc.1) as [p|] eqn:Hp; [|by mstep].
    mstep. apply ledger_ok_set_claim; [done|done|]. cbn. lia.
Qed.

Lemma forEach_found_ledger_ok k K c snapshot : ∀ found w,
  ledger_ok (db w) →
  ledger_ok (db (forEach_found k K c snapshot found w).2).
Proof.
  induction snapshot as [|doc l IH]; intros found w Hok; [done|].
  cbn [forEach_found]. unfold bind at 1.
  pose proof (useClaim_each_ledger_ok k K c found doc w Hok) as H1.
  destruct (useClaim_each k K c found doc w) as [[found'|msg] w1] eqn:E.
  - by apply IH.
  - done.
Qed.

(** Whatever snapshot a [useClaim] request goes on with, fresh or stale,
    what it writes keeps every counter within its limit. *)
Lemma useClaim_after_get_ledger_ok k K c snapshot s :
  ledger_ok s →
  ledger_ok (store_after (try_catch (useClaim_after_get k K c snapshot)
                            internal_error) s).
Proof.
  intros Hok. unfold store_after, run, try_catch, useClaim_after_get.
  unfold bind at 1.
  pose proof (forEach_found_ledger_ok k K c snapshot false
                {| db := s; log := []; resp := None |} Hok) as H.
  destruct (forEach_found _ _ _ _ _ _) as [[found|msg] w1]; cbn [snd] in *.
  - destruct w1 as [s1 lg1 r1]. destruct found; cbn [negb];
      destruct r1; by mstep.
  - destruct w1 as [s1 lg1 r1]. destruct r1; by mstep.
Qed.

(** One unit of [dental] is left, and two requests that raced are both
    answered 200; a subscriber with 50 points redeems 30 twice and keeps
    20. *)
Example raced_requests :
  entry Demo.last_unit Demo.u1 "p1" "claims_2025-03" "dental"
  = Some {| used := 1; limit := 2 |}
  ∧ (let '(r1, r2, s') := useClaim_raced Demo.march "u1" "dental"
                            Demo.last_unit in
     status <$> r1 = Some 200 ∧ status <$> r2 = Some 200
     ∧ entry s' Demo.u1 "p1" "claims_2025-03" "dental"
       = Some {| used := 2; limit := 2 |})
  ∧ (let '(r1, r2, s') := redeemPoints_raced "u1" 30 Demo.s0 in
     status <$> r1 = Some 200 ∧ status <$> r2 = Some 200
     ∧ points <$> patients s' !! Demo.u1 = Some (Some 20)).
Proof. split_and!; by vm_compute. Qed.

(** A redemption that went on with a stale subscriber document still leaves
    a balance that is not negative. *)
Lemma redeemPoints_after_get_nonneg k amount patientDoc s :
  (∀ k' data, patients s !! k' = Some data → 0 ≤ points_or_0 data) →
  ∀ k' data,
    patients (store_after (try_catch (redeemPoints_after_get k amount patientDoc)
                             internal_error) s) !! k' = Some data →
    0 ≤ points_or_0 data.
Proof.
  intros Hs k' data. unfold redeemPoints_after_get.
  destruct patientDoc as [stale|]; [|mstep; apply Hs].
  destruct (points_or_0 stale <? amount) eqn:Hlt; [mstep; apply Hs|].
  mstep. destruct (patients s !! k) as [cur|] eqn:Hcur; [|mstep; apply Hs].
  mstep. cbn [patients setPatient].
  destruct (decide (k = k')) as [->|Hne].
  - rewrite lookup_insert_eq. intros [= <-].
    change (0 ≤ points_or_0 stale - amount). lia.
  - rewrite lookup_insert_ne by done. apply Hs.
Qed.

(** ** The scenarios of the specification *)

(** Plan [basic] grants [dental] twice a month.  After the checkout the
    purchase records [dental] at 0 of 2; two [useClaim] calls are answered
    200 and the third 403. *)
Example scenario_dental :
  let checkout := λ (_ : string) (_ : option string),
                    inr (CheckoutSessionCompleted Demo.checkout_session)
                    : string + Event in
  let out :=
    serve checkout Demo.no_checkout Demo.no_portal
      [ ReqWebhook Demo.march "p1" {| rawBody := "{}"; stripe_signature := None |};
        ReqUseClaim Demo.march Demo.use_dental;
        ReqUseClaim Demo.march Demo.use_dental;
        ReqUseClaim Demo.march Demo.use_dental ]
      Demo.s0 in
  store_after (handle checkout Demo.no_checkout Demo.no_portal
                 (ReqWebhook Demo.march "p1"
                    {| rawBody := "{}"; stripe_signature := None |}))
    Demo.s0 = Demo.s1
  ∧ (λ x : Request * option Response, status <$> x.2) <$> out.1
    = [Some 200; Some 200; Some 200; Some 403]
  ∧ entry out.2 Demo.u1 "p1" "claims_2025-03" "dental"
    = Some {| used := 2; limit := 2 |}.
Proof. split_and!; by vm_compute. Qed.

(** A subscriber with 50 points redeems 30 and keeps 20; the second
    redemption of 30 is answered 400 and the balance stays 20. *)
Example scenario_points :
  let out := serve Demo.no_event Demo.no_checkout Demo.no_portal
               [ReqRedeem Demo.redeem30; ReqRedeem Demo.redeem30] Demo.s0 in
  (λ x : Request * option Response, x.2) <$> out.1
  = [ Some {| status := 200; body := Text "Points redeemed successfully" |};
      Some {| status := 400; body := Text "Not enough points to redeem" |} ]
  ∧ points <$> patients out.2 !! Demo.u1 = Some (Some 20).
Proof. split_and!; by vm_compute. Qed.

(** An event whose signature does not verify is answered 400, and the
    database is neither read nor written. *)
Lemma scenario_invalid_signature
    (constructEvent : string → option string → string + Event)
    (clock : Clock) (autoId : string) (req : WebhookReq) (s : Store)
    (message : string) :
  constructEvent (rawBody req) (stripe_signature req) = inl message →
  run (stripeWebhook constructEvent clock autoId req) s
  = (Done (),
     {| db := s; log := [];
        resp := Some {| status := 400;
                        body := Text ("Webhook Error: " +:+ message) |} |}).
Proof. intros H. unfold stripeWebhook. rewrite H. by mstep. Qed.

(** A claim name that every JavaScript object inherits is found in any
    purchase: the call is answered 200 and nothing is incremented. *)
Example scenario_inherited_name :
  let call := useClaim Demo.march
                {| uc_method := POST; uc_patientId := Some "u1";
                   uc_claimName := Some "toString" |} in
  item_name_ok "toString" = false
  ∧ status_of call Demo.s1 = Some 200
  ∧ store_after call Demo.s1 = Demo.s1.
Proof. split_and!; by vm_compute. Qed.

(** The month key and the document key, computed. *)
Example claimsKey_examples :
  claimsKey {| getFullYear := 2025; getMonth := 2; now := 0 |} = "claims_2025-03"
  ∧ claimsKey {| getFullYear := 2024; getMonth := 11; now := 0 |}
    = "claims_2024-12".
Proof. by split. Qed.

Example normalizeId_examples :
  normalizeId "  u1 " = "u1" +:+ NL
  ∧ normalizeId ("u1" +:+ NL) = "u1" +:+ NL
  ∧ normalizeId "a b" = "a b" +:+ NL
  ∧ normalizeId "   " = NL
  ∧ normalizeId "" = NL.
Proof. by split_and!. Qed.

(** * Further properties of the handlers *)

(** ** Queries that take the first match *)

Global Instance by_name_total {A} : Total (@by_name A).
Proof.
  intros [i x] [j y]. unfold by_name. cbn [fst].
  destruct (String.leb_total i j) as [->| ->]; [by left|by right].
Qed.

Global Instance by_name_trans {A} : Transitive (@by_name A).
Proof.
  intros [i x] [j y] [k z]. unfold by_name. cbn [fst].
  intros H1 H2. apply Is_true_true in H1, H2. apply Is_true_true.
  by eapply string_leb_trans.
Qed.

Lemma docs_sorted {A} (m : gmap string A) : StronglySorted by_name (docs m).
Proof. apply (StronglySorted_merge_sort _). Qed.

Lemma filter_head_least {A} (R : relation A) (P : A → Prop)
    `{∀ x, Decision (P x)} (l : list A) x rest :
  StronglySorted R l → filter P l = x :: rest →
  x ∈ l ∧ P x ∧ ∀ y, y ∈ l → P y → y = x ∨ R x y.
Proof.
  induction 1 as [|a l Hs IH Hall]; [done|].
  rewrite filter_cons. case_decide as Ha.
  - intros [= -> _]. split_and!; [by left|done|].
    intros y [->|Hy]%elem_of_cons _; [by left|right].
    rewrite Forall_forall in Hall. by apply Hall.
  - intros Hf. destruct (IH Hf) as (Hin & HP & Hleast).
    split_and!; [by right|done|].
    intros y [->|Hy]%elem_of_cons Hy'; [done|]. by apply Hleast.
Qed.

(** [where(...).limit(1)] on a collection: nothing when no document
    matches, else the matching document with the least name. *)
Lemma first_match_spec {A} (P : string * A → Prop) `{∀ d, Decision (P d)}
    (m : gmap string A) :
  match take 1 (filter P (docs m)) with
  | [] => ∀ id x, m !! id = Some x → ¬ P (id, x)
  | d :: _ =>
      m !! d.1 = Some d.2 ∧ P d
      ∧ ∀ id x, m !! id = Some x → P (id, x) → String.leb d.1 id = true
  end.
Proof.
  destruct (filter P (docs m)) as [|d rest] eqn:Hf; cbn [take].
  - by apply (proj1 (filter_docs_nil P m)).
  - destruct (filter_head_least by_name P (docs m) d rest (docs_sorted m) Hf)
      as (Hin & HP & Hleast).
    destruct d as [i x]. apply elem_of_docs in Hin. split_and!; try done.
    intros id y Hy HPy. cbn [fst].
    destruct (Hleast (id, y)) as [[= -> ->]|Hle]; [by apply elem_of_docs|done| |].
    + destruct (String.leb_total i i) as [->| ->]; done.
    + by apply Is_true_true in Hle.
Qed.

(** ** The webhook's acknowledgement *)

Section WebhookAck.

Variable constructEvent : string → option string → string + Event.



End WebhookAck.

(** ** Deliveries that come twice *)

Lemma setPatient_setPatient k p p' s :
  setPatient k p' (setPatient k p s) = setPatient k p' s.
Proof. unfold setPatient. cbn. by rewrite insert_insert_eq. Qed.

Lemma handleSubscriptionUpdated_twice sub1 sub2 s :
  sub_client_reference_id sub1 = sub_client_reference_id sub2 →
  sub_customer sub1 = sub_customer sub2 →
  store_after (handleSubscriptionUpdated sub2)
    (store_after (handleSubscriptionUpdated sub1) s)
  = store_after (handleSubscriptionUpdated sub2) s.
Proof.
  intros Hid Hcust.
  destruct (handleSubscriptionUpdated_run sub1 s)
    as [(uid & Huid & Huid' & [[_ Hrun]|(Hsome & data & Hdata & Hrun)])
       |(msg & lg & Hrun)]; cbv zeta in Hrun;
    unfold store_after at 2; rewrite Hrun; cbn [snd db]; try done.
  unfold store_after, run, handleSubscriptionUpdated.
  rewrite <- Hid, <- Hcust, Huid. destruct uid as [|a uid]; [done|].
  mstep.
  change (purchasesOf (setPatient ?k ?p s) ?k') with (purchasesOf s k').
  destruct (filter _ (docs (purchasesOf s (String a uid)))) as [|doc l];
    [done|].
  cbn [take].
  destruct (cancel_at_period_end sub2); mstep;
    rewrite Hdata; cbn [setPatient patients]; rewrite lookup_insert_eq;
    mstep; by rewrite setPatient_setPatient.
Qed.

Section Redelivery.

Variable constructEvent : string → option string → string + Event.

Lemma stripeWebhook_store_handler clock autoId req s :
  store_after (stripeWebhook constructEvent clock autoId req) s
  = match constructEvent (rawBody req) (stripe_signature req) with
    | inr (CheckoutSessionCompleted session) =>
        store_after (handleCheckoutSessionCompleted clock autoId session) s
    | inr (CustomerSubscriptionUpdated sub) =>
        store_after (handleSubscriptionUpdated sub) s
    | _ => s
    end.
Proof.
  unfold stripeWebhook.
  destruct (constructEvent _ _) as [msg|[session|sub|sub|ty]]; try done.
  - destruct (handleCheckoutSessionCompleted_run clock autoId session s)
      as [(pid & uid & plan & _ & _ & _ & _ & _ & _ & Hrun)|(msg & lg & Hrun)];
      unfold store_after, run, bind in *; by rewrite Hrun.
  - destruct (handleSubscriptionUpdated_run sub s)
      as [(uid & _ & _ & [[_ Hrun]|(_ & data & _ & Hrun)])|(msg & lg & Hrun)];
      unfold store_after, run, bind in *; by rewrite Hrun.
Qed.

(** X2.  Of two subscription-update deliveries for the same subscriber
    and customer, the later one decides: the database after both is the
    database the later one alone would leave.  In particular a delivery
    that comes twice has the effect of coming once. *)
Theorem subscription_update_last_wins clock1 clock2 id1 id2 req1 req2
    sub1 sub2 s :
  constructEvent (rawBody req1) (stripe_signature req1)
  = inr (CustomerSubscriptionUpdated sub1) →
  constructEvent (rawBody req2) (stripe_signature req2)
  = inr (CustomerSubscriptionUpdated sub2) →
  sub_client_reference_id sub1 = sub_client_reference_id sub2 →
  sub_customer sub1 = sub_customer sub2 →
  store_after (stripeWebhook constructEvent clock2 id2 req2)
    (store_after (stripeWebhook constructEvent clock1 id1 req1) s)
  = store_after (stripeWebhook constructEvent clock2 id2 req2) s.
Proof.
  intros H1 H2 Hid Hcust. rewrite !stripeWebhook_store_handler, H1, H2.
  by apply handleSubscriptionUpdated_twice.
Qed.


End Redelivery.

(** ** The checkout route *)

Section CheckoutRoute.

Variable checkout_sessions_create : CheckoutParams → string + (string * string).




End CheckoutRoute.

(** ** From the checkout route to the webhook *)

Section RoundTrip.

Variable constructEvent : string → option string → string + Event.
Variable checkout_sessions_create : CheckoutParams → string + (string * string).


End RoundTrip.

(** ** The customer-portal route *)

Section PortalRoute.

Variable billingPortal_sessions_create : string → string + string.

Lemma createCustomerPortal_run id planId s :
  planId ≠ "" →
  let k := normalizeId id in
  run (createCustomerPortal billingPortal_sessions_create
         {| po_userId := Some id; po_planId := Some planId |}) s
  = (Done (),
     match patients s !! k with
     | None =>
         {| db := s; log := [Read (PatientDoc k)];
            resp := Some {| status := 404;
                            body := JsonError "Patient not found" |} |}
     | Some _ =>
         {| db := s; log := [Read (PatientDoc k); Read (PurchasesColl k)];
            resp :=
              Some match take 1 (filter (λ d : string * Purchase,
                                           health_plan_id d.2 = planId)
                                   (docs (purchasesOf s k))) with
                   | purchaseDoc :: _ =>
                       if JS.truthy (p_stripeCustomerId purchaseDoc.2)
                       then match billingPortal_sessions_create
                                    (p_stripeCustomerId purchaseDoc.2) with
                            | inl _ => portal_failed
                            | inr url => {| status := 200; body := JsonUrl url |}
                            end
                       else {| status := 400;
                               body := JsonError
                                 "User does not have a Stripe Customer ID" |}
                   | [] => {| status := 400;
                              body := JsonError
                                "User does not have a Stripe Customer ID" |}
                   end |}
     end).
Proof.
  intros Hplan k. subst k. unfold createCustomerPortal.
  cbn [po_userId po_planId]. rewrite normalizeId_truthy.
  destruct planId as [|a planId]; [done|].
  cbn [JS.truthy_opt JS.truthy negb orb default]. mstep.
  destruct (patients s !! _) as [data|]; [|by mstep].
  mstep. destruct (take 1 _) as [|purchaseDoc ?]; [by mstep|].
  destruct (JS.truthy _); cbn [negb]; [|by mstep].
  destruct (billingPortal_sessions_create _); by mstep.
Qed.

(** X6.  The portal is opened only for a customer recorded on one of the
    subscriber's own purchases of the plan.  When the route answers 200
    with a url, the subscriber document exists, the subscriber has a
    purchase of plan [planId] with a non-empty customer reference, the
    url is the provider's reply for that customer, and the purchase is
    the one with the least document id among the subscriber's purchases
    of the plan. *)
Theorem createCustomerPortal_own_customer req url s :
  response_of (createCustomerPortal billingPortal_sessions_create req) s
  = Some {| status := 200; body := JsonUrl url |} →
  ∃ id planId pid p,
    po_userId req = Some id ∧ po_planId req = Some planId
    ∧ is_Some (patients s !! normalizeId id)
    ∧ purchasesOf s (normalizeId id) !! pid = Some p
    ∧ health_plan_id p = planId
    ∧ p_stripeCustomerId p ≠ ""
    ∧ billingPortal_sessions_create (p_stripeCustomerId p) = inr url
    ∧ ∀ pid' p', purchasesOf s (normalizeId id) !! pid' = Some p' →
                 health_plan_id p' = planId → String.leb pid pid' = true.
Proof.
  destruct req as [[id|] [[|a planId]|]];
    try (by unfold createCustomerPortal; cbn [po_userId po_planId];
            rewrite ?normalizeId_truthy; mstep).
  unfold response_of. rewrite createCustomerPortal_run by done. cbn [snd].
  destruct (patients s !! _) as [data|] eqn:Hdata; cbn [resp]; [|done].
  pose proof (first_match_spec
                (λ d : string * Purchase, health_plan_id d.2 = String a planId)
                (purchasesOf s (normalizeId id))) as Hfirst.
  destruct (take 1 _) as [|[pid p] ?]; [done|].
  destruct Hfirst as (Hp & Hplan & Hleast). cbn [fst snd] in *.
  destruct (p_stripeCustomerId p) as [|c cust] eqn:Hcust; [done|].
  cbn [JS.truthy].
  destruct (billingPortal_sessions_create _) as [msg|url'] eqn:Hcall; [done|].
  intros [= ->]. exists id, (String a planId), pid, p.
  rewrite Hcust. by split_and!.
Qed.

(** X7.  The portal route answers every request: the handler returns,
    one response is sent, with status 200, 400, 404 or 500, and the
    database is unchanged and only read.  A request without a [userId]
    is answered 500, not 400; so is a failure of the provider, whose
    message is not passed on. *)
Theorem createCustomerPortal_always_answers req s :
  let c := createCustomerPortal billingPortal_sessions_create req in
  (run c s).1 = Done ()
  ∧ store_after c s = s
  ∧ Forall (λ a, is_read a = true) (accesses_of c s)
  ∧ (∃ r, response_of c s = Some r
       ∧ status r ∈ [200; 400; 404; 500]
       ∧ (status r = 500 → r = portal_failed))
  ∧ (po_userId req = None → response_of c s = Some portal_failed).
Proof.
  intros c. subst c. unfold store_after, accesses_of, response_of.
  destruct req as [[id|] planId]; cbn [po_userId];
    [|split_and!; [done|done|by constructor| |done];
      eexists; split_and!; [by mstep|set_solver|done]].
  assert (planId = None ∨ planId = Some "" ∨ ∃ p, planId = Some p ∧ p ≠ "")
    as [->|[->|(p & -> & Hp)]]
    by (destruct planId as [[|]|]; eauto).
  1, 2: unfold createCustomerPortal; cbn [po_userId po_planId];
        rewrite normalizeId_truthy; mstep;
        (split_and!; [done|done|by constructor| |done]);
        eexists; split_and!; [done|set_solver|done].
  rewrite createCustomerPortal_run by done. cbn [fst snd].
  destruct (patients s !! _) as [data|]; cbn [db log resp].
  - split_and!; [done|done|by repeat constructor| |done].
    eexists. split; [done|].
    destruct (take 1 _) as [|purchaseDoc ?];
      [split; [set_solver|done]|].
    destruct (JS.truthy _); [|split; [set_solver|done]].
    destruct (billingPortal_sessions_create _);
      (split; [set_solver|done]).
  - split_and!; [done|done|by repeat constructor| |done].
    eexists. split_and!; [done|set_solver|done].
Qed.

End PortalRoute.

(** ** What no request changes *)




Lemma same_subscribers_refl s : same_subscribers s s.
Proof. intros k. by destruct (patients s !! k). Qed.

Lemma same_subscribers_trans s1 s2 s3 :
  same_subscribers s1 s2 → same_subscribers s2 s3 → same_subscribers s1 s3.
Proof.
  intros H12 H23 k. specialize (H12 k). specialize (H23 k).
  destruct (patients s1 !! k), (patients s2 !! k), (patients s3 !! k);
    try done. congruence.
Qed.

Lemma same_subscribers_eq s s' :
  patients s' = patients s → same_subscribers s s'.
Proof. intros Heq k. rewrite Heq. by destruct (patients s !! k). Qed.

Lemma same_subscribers_setPatient s uid data data' :
  patients s !! uid = Some data →
  stripeCustomerId data' = stripeCustomerId data →
  same_subscribers s (setPatient uid data' s).
Proof.
  intros Hdata Hcust k. cbn [setPatient patients].
  destruct (decide (k = uid)) as [->|Hne].
  - by rewrite lookup_insert_eq, Hdata.
  - rewrite lookup_insert_ne by done. by destruct (patients s !! k).
Qed.

Section Kept.

Variable constructEvent : string → option string → string + Event.
Variable checkout_sessions_create : CheckoutParams → string + (string * string).
Variable billingPortal_sessions_create : string → string + string.

Local Abbreviation handle_ :=
  (handle constructEvent checkout_sessions_create billingPortal_sessions_create).
Local Abbreviation serve_ :=
  (serve constructEvent checkout_sessions_create billingPortal_sessions_create).

Lemma step_subscribers r s :
  same_subscribers s (store_after (handle_ r) s).
Proof.
  destruct r as [clock autoId req|req|req|clock req|clock req|req];
    cbn [handle].
  - destruct (stripeWebhook_store constructEvent clock autoId req s)
      as [->|[(?&?&?&?&?&?&->)|(uid&data&v&Hdata&->)]].
    + apply same_subscribers_refl.
    + by apply same_subscribers_eq.
    + by eapply same_subscribers_setPatient.
  - rewrite createCheckoutSession_store. apply same_subscribers_refl.
  - rewrite createCustomerPortal_store. apply same_subscribers_refl.
  - destruct (getClaims_run clock req s) as [-> _].
    apply same_subscribers_refl.
  - destruct (useClaim_cases clock req s)
      as [(?&?&?&?&?&?&?&?&?)|[-> _]];
      [by apply same_subscribers_eq|apply same_subscribers_refl].
  - destruct (redeemPoints_cases req s)
      as [(?&?&?&?&?&?&?&?&->)|[_ ->]];
      [by eapply same_subscribers_setPatient|apply same_subscribers_refl].
Qed.



(** X8.  No request adds, removes or re-links a subscriber, and none
    touches the plans: after any requests served one after another the
    plans are as before, the subscriber documents are the same ones, and
    each has the customer reference it had. *)
Theorem serve_keeps_plans_and_subscribers rs s :
  let s' := (serve constructEvent checkout_sessions_create
               billingPortal_sessions_create rs s).2 in
  health_plans s' = health_plans s
  ∧ dom (patients s') = dom (patients s)
  ∧ ∀ k data, patients s !! k = Some data →
      ∃ data', patients s' !! k = Some data'
               ∧ stripeCustomerId data' = stripeCustomerId data.
Proof.
  intros s'. subst s'.
  assert (health_plans (serve_ rs s).2 = health_plans s
          ∧ same_subscribers s (serve_ rs s).2) as [Hplans Hsub].
  { revert s. induction rs as [|r rs IH]; intros s.
    - split; [done|apply same_subscribers_refl].
    - cbn [serve snd]. destruct (IH (store_after (handle_ r) s)) as [-> Hs].
      split; [apply step_plans|].
      eapply same_subscribers_trans; [apply step_subscribers|exact Hs]. }
  split_and!; [done| |].
  - apply set_eq. intros k. rewrite !elem_of_dom. specialize (Hsub k).
    by destruct (patients s !! k), (patients _ !! k).
  - intros k data Hdata. specialize (Hsub k). rewrite Hdata in Hsub.
    destruct (patients _ !! k) as [data'|]; [|done]. by exists data'.
Qed.



End Kept.

(** ** Allowances outside the month of purchase *)

Lemma getClaims_response clock id data s :
  patients s !! normalizeId id = Some data →
  response_of (getClaims clock {| gc_patientId := Some id |}) s
  = Some {| status := 200;
            body := JsonClaims
              (flat_map (λ doc : string * Purchase,
                           entries_of (default ∅ (claims doc.2 !! claimsKey clock)))
                 (orderBy_purchased_at_desc (purchasesOf s (normalizeId id))))
              (points_or_0 data) |}.
Proof.
  intros Hdata. unfold getClaims. cbn [gc_patientId].
  rewrite normalizeId_truthy. cbn [negb]. mstep. rewrite Hdata. by mstep.
Qed.



Section Lapse.

Variable constructEvent : string → option string → string + Event.
Variable checkout_sessions_create : CheckoutParams → string + (string * string).
Variable billingPortal_sessions_create : string → string + string.

Local Abbreviation handle_ :=
  (handle constructEvent checkout_sessions_create billingPortal_sessions_create).
Local Abbreviation serve_ :=
  (serve constructEvent checkout_sessions_create billingPortal_sessions_create).



End Lapse.

(** ** The month key *)

Lemma string_length_append (a b : string) :
  String.length (a +:+ b) = (String.length a + String.length b)%nat.
Proof.
  induction a as [|c a IH]; [done|].
  change (S (String.length (a +:+ b))
          = S (String.length a + String.length b)). by rewrite IH.
Qed.

Lemma string_append_inj_suffix (a a' b b' : string) :
  String.length b = String.length b' →
  a +:+ b = a' +:+ b' → a = a' ∧ b = b'.
Proof.
  intros Hlen. revert a'.
  induction a as [|c a IH]; intros [|c' a'] Heq.
  - done.
  - exfalso. change (b = String c' (a' +:+ b')) in Heq.
    rewrite Heq in Hlen. cbn [String.length] in Hlen.
    rewrite string_length_append in Hlen. lia.
  - exfalso. change (String c (a +:+ b) = b') in Heq.
    rewrite <- Heq in Hlen. cbn [String.length] in Hlen.
    rewrite string_length_append in Hlen. lia.
  - change (String c (a +:+ b) = String c' (a' +:+ b')) in Heq.
    injection Heq as -> Heq. destruct (IH a' Heq) as [-> ->]. done.
Qed.

Lemma month_suffix_inj (m m' : nat) :
  (m < 12)%nat → (m' < 12)%nat →
  JS.padStart0 2 (pretty (S m)) = JS.padStart0 2 (pretty (S m')) → m = m'.
Proof.
  intros Hm Hm'.
  do 12 (destruct m as [|m]; [do 12 (destruct m' as [|m']; [by vm_compute|]); lia|]).
  lia.
Qed.

Lemma month_suffix_length (m : nat) :
  (m < 12)%nat → String.length ("-" +:+ JS.padStart0 2 (pretty (S m))) = 3%nat.
Proof.
  intros Hm. do 12 (destruct m as [|m]; [by vm_compute|]). lia.
Qed.

(** X11.  The month key tells calendar months apart and nothing else:
    two dates have the same key exactly when they have the same year and
    the same month ([getMonth] is 0 to 11). *)
Theorem claimsKey_same_month (c c' : Clock) :
  (getMonth c < 12)%nat → (getMonth c' < 12)%nat →
  claimsKey c = claimsKey c'
  ↔ getFullYear c = getFullYear c' ∧ getMonth c = getMonth c'.
Proof.
  intros Hm Hm'. unfold claimsKey. split; [|by intros [-> ->]].
  intros Heq. cbn in Heq. simplify_eq.
  apply string_append_inj_suffix in Heq as [Hy Hmm];
    [|by rewrite !month_suffix_length].
  split; [by apply (inj pretty)|].
  apply month_suffix_inj; [done..|]. cbn in Hmm. by simplify_eq.
Qed.

(** ** The listing and the claim *)

Lemma elem_of_listing K (l : list (string * Purchase)) e :
  e ∈ flat_map (λ doc : string * Purchase,
                  entries_of (default ∅ (claims doc.2 !! K))) l
  ↔ ∃ doc d, doc ∈ l ∧ claim_at doc.2 K (ce_name e) = Some d
             ∧ ce_used e = used d ∧ ce_limit e = limit d.
Proof.
  rewrite list_elem_of_In, in_flat_map. split.
  - intros (doc & Hin & He). apply list_elem_of_In in Hin, He.
    apply elem_of_entries_of in He as (d & Hd & Hu & Hl).
    rewrite claim_at_default in Hd. by exists doc, d.
  - intros (doc & d & Hin & Hd & Hu & Hl). exists doc.
    rewrite <- !list_elem_of_In. split; [done|].
    apply elem_of_entries_of. exists d. by rewrite claim_at_default.
Qed.

Lemma existsb_false_iff {A} (f : A → bool) (l : list A) :
  existsb f l = false ↔ ∀ x, x ∈ l → f x = false.
Proof.
  induction l as [|x l IH]; cbn [existsb].
  - split; [by intros _ x Hx; inversion Hx|done].
  - rewrite orb_false_iff, IH. split.
    + intros [Hx Hl] y [->|Hy]%elem_of_cons; auto.
    + intros Hall. split; [apply Hall; by left|].
      intros y Hy. apply Hall. by right.
Qed.

Lemma useClaim_response_listing K c (l : list (string * Purchase)) :
  bool_decide (c ∈ inherited_names) = false →
  useClaim_response K c l
  = answer_from_listing c
      (flat_map (λ doc : string * Purchase,
                   entries_of (default ∅ (claims doc.2 !! K))) l).
Proof.
  intros Hinh. unfold useClaim_response, answer_from_listing.
  rewrite existsb_hit by done.
  set (cl := flat_map _ l).
  destruct (existsb (λ doc, holds K c doc.2) l) eqn:Hhit.
  - apply existsb_exists in Hhit as (doc & Hin%list_elem_of_In & Hholds).
    unfold holds in Hholds.
    destruct (claim_at doc.2 K c) as [d|] eqn:Hd; [|done].
    assert ({| ce_name := c; ce_used := used d; ce_limit := limit d |}
              ∈ filter (λ e, ce_name e = c) cl) as Hne.
    { apply list_elem_of_filter. split; [done|].
      apply elem_of_listing. by exists doc, d. }
    destruct (filter (λ e, ce_name e = c) cl) as [|e0 named] eqn:Hnamed;
      [by inversion Hne|].
    rewrite <- Hnamed. clear Hne e0 named Hnamed.
    assert (existsb (λ e, (ce_used e + 1 >? ce_limit e)%Z)
              (filter (λ e, ce_name e = c) cl)
            = existsb (λ doc0, refuses K c doc0.2) l) as ->; [|done].
    destruct (existsb (λ doc0, refuses K c doc0.2) l) eqn:Href.
    + apply existsb_exists in Href as (doc' & Hin'%list_elem_of_In & Href).
      unfold refuses in Href.
      destruct (claim_at doc'.2 K c) as [d'|] eqn:Hd'; [|done].
      apply existsb_exists.
      exists {| ce_name := c; ce_used := used d'; ce_limit := limit d' |}.
      split; [|done]. apply list_elem_of_In, list_elem_of_filter.
      split; [done|]. apply elem_of_listing. by exists doc', d'.
    + apply existsb_false_iff.
      intros e [He Hin']%list_elem_of_filter.
      apply elem_of_listing in Hin' as (doc' & d' & Hin' & Hd' & Hu & Hl).
      rewrite existsb_false_iff in Href. specialize (Href doc' Hin').
      unfold refuses in Href. rewrite He in Hd'. rewrite Hd' in Href.
      unfold at_limit in Href. by rewrite Hu, Hl.
  - rewrite filter_none; [done|].
    intros e Hin He. apply elem_of_listing in Hin as (doc & d & Hin & Hd & _).
    rewrite existsb_false_iff in Hhit. specialize (Hhit doc Hin).
    unfold holds in Hhit. rewrite He in Hd. by rewrite Hd in Hhit.
Qed.

(** X12.  The list [getClaims] returns tells what [useClaim] will
    answer.  For an existing subscriber and a plain item name [c], on the
    same database and in the same month, [useClaim] answers 404 when the
    list has no entry named [c], 403 when some entry named [c] has
    [used + 1 > limit], and 200 otherwise. *)
Theorem getClaims_predicts_useClaim clock id c data s :
  item_name_ok c = true →
  patients s !! normalizeId id = Some data →
  ∃ cl,
    response_of (getClaims clock {| gc_patientId := Some id |}) s
    = Some {| status := 200; body := JsonClaims cl (points_or_0 data) |}
    ∧ response_of (useClaim clock {| uc_method := POST; uc_patientId := Some id;
                                     uc_claimName := Some c |}) s
      = Some (answer_from_listing c cl).
Proof.
  intros (Hseg & Htruthy & Hinh)%item_name_ok_inv Hdata.
  eexists. split; [by apply getClaims_response|].
  destruct (useClaim_run clock id c s Htruthy) as (o & s' & Hrun & _).
  cbv zeta in Hrun. unfold response_of. rewrite Hrun. cbn [snd resp].
  f_equal. by apply useClaim_response_listing.
Qed.

(** ** What [useClaim] does not look at *)

(** X13.  [useClaim] never reads the subscriber document: on two
    databases with the same purchases it gives the same answer, makes the
    same accesses and leaves the same purchases, whatever the subscriber
    documents are, and it leaves them as they are.  So a claim is granted
    or refused without regard to the subscriber's subscription status, or
    to there being a subscriber document at all. *)
Theorem useClaim_ignores_subscriber clock req s s' :
  purchases s' = purchases s →
  let call := useClaim clock req in
  response_of call s' = response_of call s
  ∧ accesses_of call s' = accesses_of call s
  ∧ (∀ k, purchasesOf (store_after call s') k
          = purchasesOf (store_after call s) k)
  ∧ patients (store_after call s') = patients s'.
Proof.
  intros Hsame call. subst call.
  assert (∀ k, purchasesOf s' k = purchasesOf s k) as Hof
    by (intros k; apply purchasesOf_ext; by rewrite Hsame).
  destruct req as [m [id|] [c|]]; unfold useClaim;
    cbn [uc_method uc_patientId uc_claimName];
    destruct m; cbn [is_POST negb]; try (by mstep).
  rewrite normalizeId_truthy. cbn [negb orb].
  destruct (JS.truthy c) eqn:Hc; cbn [negb]; [|by mstep].
  destruct (useClaim_run clock id c s Hc)
    as (o & s1 & Hrun & _ & _ & Hk' & Hk & _).
  destruct (useClaim_run clock id c s' Hc)
    as (o' & s1' & Hrun' & _ & Hpa' & Hk'' & Hk2 & _).
  cbv zeta in *. rewrite Hof in Hrun'.
  unfold useClaim in Hrun, Hrun'.
  cbn [uc_method uc_patientId uc_claimName is_POST negb] in Hrun, Hrun'.
  rewrite normalizeId_truthy, Hc in Hrun, Hrun'. cbn [negb orb] in Hrun, Hrun'.
  unfold response_of, accesses_of, store_after. rewrite Hrun, Hrun'.
  cbn [snd db log resp]. split_and!; [done|done| |done].
  intros k. destruct (decide (k = normalizeId id)) as [->|Hne].
  - apply map_eq. intros pid. by rewrite Hk, Hk2, Hof.
  - apply purchasesOf_ext. by rewrite Hk', Hk'', Hsame.
Qed.

(** ** Ids that differ in surrounding whitespace *)

Lemma trimStart_app_ws pre s :
  all_chars JS.is_whitespace pre = true →
  JS.trimStart (pre +:+ s) = JS.trimStart s.
Proof.
  induction pre as [|c pre IH]; [done|].
  intros [Hc Hpre]%andb_true_iff.
  change (JS.trimStart (String c (pre +:+ s)) = JS.trimStart s).
  cbn [JS.trimStart]. rewrite Hc. by apply IH.
Qed.

Lemma trimEnd_all_whitespace post :
  all_chars JS.is_whitespace post = true → JS.trimEnd post = "".
Proof.
  induction post as [|c post IH]; [done|].
  intros [Hc Hpost]%andb_true_iff. cbn [JS.trimEnd].
  by rewrite (IH Hpost), Hc.
Qed.

Lemma trimEnd_app_ws s post :
  all_chars JS.is_whitespace post = true →
  JS.trimEnd (s +:+ post) = JS.trimEnd s.
Proof.
  intros Hpost. induction s as [|c s IH].
  - by apply trimEnd_all_whitespace.
  - change (JS.trimEnd (String c (s +:+ post)) = JS.trimEnd (String c s)).
    cbn [JS.trimEnd]. by rewrite IH.
Qed.

Lemma trimEnd_idem s : JS.trimEnd (JS.trimEnd s) = JS.trimEnd s.
Proof.
  induction s as [|c s IH]; [done|]. cbn [JS.trimEnd].
  destruct (JS.trimEnd s) as [|d t] eqn:Ht.
  - destruct (JS.is_whitespace c) eqn:Hc; [done|].
    cbn [JS.trimEnd]. by rewrite Hc.
  - cbn [JS.trimEnd] in *. by rewrite IH.
Qed.

Lemma trim_app_ws s post :
  all_chars JS.is_whitespace post = true → JS.trim (s +:+ post) = JS.trim s.
Proof.
  intros Hpost. unfold JS.trim. induction s as [|c s IH].
  - change ("" +:+ post) with post.
    by rewrite (trimStart_all_whitespace post Hpost).
  - change (String c s +:+ post) with (String c (s +:+ post)).
    cbn [JS.trimStart]. destruct (JS.is_whitespace c); [done|].
    change (String c (s +:+ post)) with (String c s +:+ post).
    by apply trimEnd_app_ws.
Qed.

Lemma trim_idem s : JS.trim (JS.trim s) = JS.trim s.
Proof.
  assert (JS.trimStart (JS.trim s) = JS.trim s) as Hstart.
  { destruct (JS.trim s) as [|c t] eqn:Ht; [done|].
    cbn [JS.trimStart]. by rewrite (trim_head s c t Ht). }
  unfold JS.trim at 1. rewrite Hstart. unfold JS.trim. apply trimEnd_idem.
Qed.

Lemma NL_whitespace : all_chars JS.is_whitespace NL = true.
Proof. done. Qed.

(** X14.  Whitespace around an id does not matter, and a key is its own
    key: an id with whitespace before and after it is stored under the
    same key as the id without, and rewriting a key again gives the key
    back. *)
Theorem normalizeId_canonical pre id post :
  all_chars JS.is_whitespace pre = true →
  all_chars JS.is_whitespace post = true →
  normalizeId (pre +:+ id +:+ post) = normalizeId id
  ∧ normalizeId (normalizeId id) = normalizeId id.
Proof.
  intros Hpre Hpost. unfold normalizeId. split; f_equal.
  - unfold JS.trim at 1. rewrite trimStart_app_ws by done.
    by apply trim_app_ws.
  - rewrite trim_app_ws by apply NL_whitespace. apply trim_idem.
Qed.

(** ** The page's redeem buttons *)





(** ** Requests that are left without an answer *)


(** ** A claim used again and again *)

Lemma useClaim_single_holder clock id c s pid p d :
  item_name_ok c = true →
  let k := normalizeId id in
  let K := claimsKey clock in
  purchasesOf s k !! pid = Some p → claim_at p K c = Some d →
  (∀ pid' p', purchasesOf s k !! pid' = Some p' → pid' ≠ pid →
              claim_at p' K c = None) →
  let call := useClaim clock (Page.incrementClaim id c) in
  let s' := store_after call s in
  let d' := if at_limit d then d
            else {| used := used d + 1; limit := limit d |} in
  response_of call s
  = Some (if at_limit d then limit_reached else claim_incremented)
  ∧ (∃ p', purchasesOf s' k !! pid = Some p' ∧ claim_at p' K c = Some d')
  ∧ (∀ pid' p', purchasesOf s' k !! pid' = Some p' → pid' ≠ pid →
                claim_at p' K c = None).
Proof.
  intros Hc k K Hp Hd Hothers call s' d'. subst call s' d'.
  pose proof Hc as (Hseg & Htruthy & Hinh)%item_name_ok_inv.
  destruct (useClaim_run clock id c s Htruthy)
    as (o & s' & Hrun & _ & _ & _ & Hk & _). cbv zeta in Hrun, Hk.
  unfold response_of, store_after, Page.incrementClaim. rewrite Hrun.
  cbn [snd db resp]. fold k K in Hk |- *.
  split_and!.
  - f_equal. unfold useClaim_response. rewrite existsb_hit by done.
    assert (existsb (λ doc, holds K c doc.2)
              (orderBy_purchased_at_desc (purchasesOf s k)) = true) as ->.
    { apply existsb_orderBy. exists pid, p. split; [done|].
      unfold holds. by rewrite Hd. }
    assert (existsb (λ doc, refuses K c doc.2)
              (orderBy_purchased_at_desc (purchasesOf s k)) = at_limit d)
      as ->; [|done].
    destruct (at_limit d) eqn:Hlim.
    + apply existsb_orderBy. exists pid, p. split; [done|].
      unfold refuses. by rewrite Hd.
    + apply not_true_is_false. intros (pid' & p' & Hp' & Href)%existsb_orderBy.
      unfold refuses in Href.
      destruct (claim_at p' K c) as [d0|] eqn:Hd0; [|done].
      destruct (decide (pid' = pid)) as [->|Hne].
      * congruence.
      * by rewrite (Hothers pid' p' Hp' Hne) in Hd0.
  - rewrite Hk, Hp. eexists. split; [done|].
    unfold upd, grants. rewrite Hd, Hseg, andb_true_r.
    destruct (at_limit d); cbn [negb]; [done|].
    rewrite claim_at_bump, decide_True by done. by rewrite Hd.
  - intros pid' p'. rewrite Hk.
    destruct (purchasesOf s k !! pid') as [p0|] eqn:Hp0; [|done].
    intros [= <-] Hne. unfold upd, grants.
    rewrite (Hothers pid' p0 Hp0 Hne). cbn [andb].
    by apply (Hothers pid' p0).
Qed.

Section Exhaust.

Variable constructEvent : string → option string → string + Event.
Variable checkout_sessions_create : CheckoutParams → string + (string * string).
Variable billingPortal_sessions_create : string → string + string.

Local Abbreviation serve_ :=
  (serve constructEvent checkout_sessions_create billingPortal_sessions_create).

(** X17.  A claim can be used exactly as often as it has room.  When
    one purchase of the subscriber holds claim [c] (a plain item name) in
    the current month, at [used] of [limit], then of [n] presses of its
    button, served one after another, the first [limit - used] are
    answered 200 and every later one 403, and the counter ends at
    [used] plus the number of presses answered 200. *)
Theorem useClaim_until_used_up n clock id c pid : ∀ s p d,
  item_name_ok c = true →
  let k := normalizeId id in
  let K := claimsKey clock in
  purchasesOf s k !! pid = Some p → claim_at p K c = Some d →
  (∀ pid' p', purchasesOf s k !! pid' = Some p' → pid' ≠ pid →
              claim_at p' K c = None) →
  let press := ReqUseClaim clock (Page.incrementClaim id c) in
  let out := serve_ (replicate n press) s in
  let room := Z.to_nat (limit d - used d) in
  out.1.*2 = replicate (n `min` room) (Some claim_incremented)
             ++ replicate (n - room) (Some limit_reached)
  ∧ entry out.2 k pid K c
    = Some {| used := used d + Z.of_nat (n `min` room); limit := limit d |}.
Proof.
  induction n as [|n IH]; intros s p d Hc k K Hp Hd Hothers press out room;
    subst press out room k K.
  - cbn [replicate serve fst snd fmap list_fmap Nat.min Nat.sub app].
    split; [done|]. unfold entry. rewrite Hp. cbn. rewrite Hd.
    destruct d as [u l]. cbn. do 2 f_equal. lia.
  - cbn [replicate serve fst snd fmap list_fmap handle].
    destruct (useClaim_single_holder clock id c s pid p d Hc Hp Hd Hothers)
      as (Hresp & (p1 & Hp1 & Hd1) & Hothers1). cbv zeta in *.
    destruct (IH _ p1 _ Hc Hp1 Hd1 Hothers1) as [IHresp IHentry].
    cbv zeta in IHresp, IHentry.
    rewrite IHresp, IHentry, Hresp. unfold at_limit.
    destruct (used d + 1 >? limit d) eqn:Hlim.
    + assert (Z.to_nat (limit d - used d) = 0%nat) as -> by lia.
      rewrite !Nat.min_0_r, !Nat.sub_0_r. cbn [replicate app]. split; [done|].
      done.
    + cbn [used limit].
      assert (Z.to_nat (limit d - used d)
              = S (Z.to_nat (limit d - (used d + 1)))) as -> by lia.
      cbn [Nat.min Nat.sub replicate app]. split; [done|].
      do 2 f_equal. lia.
Qed.

End Exhaust.

(** ** From the checkout to the portal *)

Section PortalAfterCheckout.

Variable constructEvent : string → option string → string + Event.
Variable billingPortal_sessions_create : string → string + string.

Lemma stripeWebhook_checkout_run clock autoId req session pid uid plan s :
  constructEvent (rawBody req) (stripe_signature req)
  = inr (CheckoutSessionCompleted session) →
  metadata_planId session = Some pid → pid ≠ "" →
  client_reference_id session = Some uid → uid ≠ "" →
  health_plans s !! pid = Some plan →
  purchasesOf s uid !! autoId = None →
  run (stripeWebhook constructEvent clock autoId req) s
  = (Done (),
     {| db := setPurchase uid autoId
                (newPurchase clock pid (customer session) plan) s;
        log := [Read (PlanDoc pid); Read (PatientDoc uid);
                Write (PurchaseDoc uid autoId)];
        resp := Some received |}).
Proof.
  intros Hev Hpid Hpid' Huid Huid' Hplan Hfresh.
  unfold stripeWebhook. rewrite Hev.
  unfold handleCheckoutSessionCompleted. rewrite Hpid, Huid.
  destruct pid; [done|]. destruct uid; [done|].
  mstep. rewrite Hplan. mstep. by rewrite Hfresh.
Qed.

(** X18.  After the first purchase of a plan the portal opens for the
    customer who paid.  When a checkout-completed delivery for an
    existing subscriber and plan has been handled, the subscriber having
    had no purchase of that plan before, a portal request for that
    subscriber and plan asks the provider for a session of the customer
    of that checkout and answers 200 with its url, or 500 when the
    provider fails. *)
Theorem portal_after_checkout clock autoId wreq id pid cust plan data s :
  constructEvent (rawBody wreq) (stripe_signature wreq)
  = inr (CheckoutSessionCompleted
           {| client_reference_id := Some (normalizeId id);
              metadata_planId := Some pid; customer := cust |}) →
  pid ≠ "" → cust ≠ "" →
  health_plans s !! pid = Some plan →
  patients s !! normalizeId id = Some data →
  purchasesOf s (normalizeId id) !! autoId = None →
  (∀ pid' p', purchasesOf s (normalizeId id) !! pid' = Some p' →
              health_plan_id p' ≠ pid) →
  let s' := store_after (stripeWebhook constructEvent clock autoId wreq) s in
  response_of (createCustomerPortal billingPortal_sessions_create
                 {| po_userId := Some id; po_planId := Some pid |}) s'
  = Some match billingPortal_sessions_create cust with
         | inr url => {| status := 200; body := JsonUrl url |}
         | inl _ => portal_failed
         end.
Proof.
  intros Hev Hpid Hcust Hplan Hdata Hfresh Hfirst s'.
  assert (normalizeId id ≠ "") as Hk
    by (pose proof (normalizeId_truthy id); by destruct (normalizeId id)).
  assert (s' = setPurchase (normalizeId id) autoId
                 (newPurchase clock pid cust plan) s) as ->.
  { subst s'. unfold store_after.
    by rewrite (stripeWebhook_checkout_run clock autoId wreq _ pid
                  (normalizeId id) plan s Hev eq_refl Hpid eq_refl Hk
                  Hplan Hfresh). }
  unfold response_of.
  rewrite (createCustomerPortal_run billingPortal_sessions_create id pid _ Hpid).
  cbn [snd setPurchase patients]. rewrite Hdata. cbn [resp]. f_equal.
  set (s1 := setPurchase _ _ _ s).
  pose proof (first_match_spec
                (λ d : string * Purchase, health_plan_id d.2 = pid)
                (purchasesOf s1 (normalizeId id))) as Hq.
  assert (∀ pid0 p0, purchasesOf s1 (normalizeId id) !! pid0 = Some p0 →
                     health_plan_id p0 = pid → p_stripeCustomerId p0 = cust)
    as Hown.
  { intros pid0 p0. unfold s1. rewrite purchasesOf_setPurchase.
    case_decide as H; [by intros [= <-]|].
    intros Hp0 Hp. by destruct (Hfirst pid0 p0 Hp0). }
  fold s1.
  destruct (take 1 _) as [|[pid0 p0] ?].
  - exfalso. apply (Hq autoId (newPurchase clock pid cust plan)); [|done].
    unfold s1. by rewrite purchasesOf_setPurchase, decide_True.
  - destruct Hq as (Hp0 & Hpl & _). cbn [fst snd] in *.
    rewrite (Hown pid0 p0 Hp0 Hpl).
    destruct cust; [done|]. cbn [JS.truthy].
    by destruct (billingPortal_sessions_create _).
Qed.

End PortalAfterCheckout.

(** ** The theorems above at concrete inputs *)

Lemma subscription_update_last_wins_witness :
  let cancel := stripeWebhook Cases.events Demo.march "e1" (Cases.delivery "cancel") in
  let resume := stripeWebhook Cases.events Demo.march "e2" (Cases.delivery "resume") in
  store_after resume (store_after cancel Demo.s1) = store_after resume Demo.s1.
Proof.
  apply (subscription_update_last_wins Cases.events Demo.march Demo.march
           "e1" "e2" (Cases.delivery "cancel") (Cases.delivery "resume")
           Demo.cancel_cus_1 Cases.resume_cus_1 Demo.s1); reflexivity.
Defined.



Lemma createCustomerPortal_own_customer_witness :
  let req := {| po_userId := Some "u1"; po_planId := Some "basic" |} in
  ∃ id planId pid p,
    po_userId req = Some id ∧ po_planId req = Some planId
    ∧ is_Some (patients Demo.s1 !! normalizeId id)
    ∧ purchasesOf Demo.s1 (normalizeId id) !! pid = Some p
    ∧ health_plan_id p = planId
    ∧ p_stripeCustomerId p ≠ ""
    ∧ Cases.portal (p_stripeCustomerId p) = inr "https://billing.example/cus_1"
    ∧ ∀ pid' p', purchasesOf Demo.s1 (normalizeId id) !! pid' = Some p' →
                 health_plan_id p' = planId → String.leb pid pid' = true.
Proof.
  apply (createCustomerPortal_own_customer Cases.portal
           {| po_userId := Some "u1"; po_planId := Some "basic" |}
           "https://billing.example/cus_1" Demo.s1).
  by vm_compute.
Defined.



Lemma claimsKey_same_month_witness :
  claimsKey Demo.march = claimsKey Cases.april
  ↔ getFullYear Demo.march = getFullYear Cases.april
    ∧ getMonth Demo.march = getMonth Cases.april.
Proof.
  apply (claimsKey_same_month Demo.march Cases.april); cbn; lia.
Defined.

Lemma getClaims_predicts_useClaim_witness :
  ∃ cl,
    response_of (getClaims Demo.march {| gc_patientId := Some "u1" |})
      Demo.one_used_up
    = Some {| status := 200;
              body := JsonClaims cl (points_or_0 Demo.patient50) |}
    ∧ response_of (useClaim Demo.march
                     {| uc_method := POST; uc_patientId := Some "u1";
                        uc_claimName := Some "dental" |}) Demo.one_used_up
      = Some (answer_from_listing "dental" cl).
Proof.
  apply (getClaims_predicts_useClaim Demo.march "u1" "dental" Demo.patient50
           Demo.one_used_up).
  - reflexivity.
  - by vm_compute.
Defined.

Lemma useClaim_ignores_subscriber_witness :
  let call := useClaim Demo.march Demo.use_dental in
  response_of call Cases.no_subscriber = response_of call Demo.s1
  ∧ accesses_of call Cases.no_subscriber = accesses_of call Demo.s1
  ∧ (∀ k, purchasesOf (store_after call Cases.no_subscriber) k
          = purchasesOf (store_after call Demo.s1) k)
  ∧ patients (store_after call Cases.no_subscriber)
    = patients Cases.no_subscriber.
Proof.
  apply (useClaim_ignores_subscriber Demo.march Demo.use_dental Demo.s1
           Cases.no_subscriber).
  reflexivity.
Defined.

Lemma normalizeId_canonical_witness :
  normalizeId ("  " +:+ "u1" +:+ " ") = normalizeId "u1"
  ∧ normalizeId (normalizeId "u1") = normalizeId "u1".
Proof.
  apply (normalizeId_canonical "  " "u1" " "); reflexivity.
Defined.


Lemma useClaim_until_used_up_witness :
  let press := ReqUseClaim Demo.march (Page.incrementClaim "u1" "dental") in
  let out := serve Cases.events Cases.sessions Cases.portal
               (replicate 4 press) Demo.s1 in
  let d := {| used := 0; limit := 2 |} in
  let room := Z.to_nat (limit d - used d) in
  out.1.*2 = replicate (4 `min` room) (Some claim_incremented)
             ++ replicate (4 - room) (Some limit_reached)
  ∧ entry out.2 (normalizeId "u1") "p1" (claimsKey Demo.march) "dental"
    = Some {| used := used d + Z.of_nat (4 `min` room); limit := limit d |}.
Proof.
  apply (useClaim_until_used_up Cases.events Cases.sessions Cases.portal
           4 Demo.march "u1" "dental" "p1" Demo.s1 (Demo.purchase 1000 0 2)
           {| used := 0; limit := 2 |}).
  - reflexivity.
  - by vm_compute.
  - by vm_compute.
  - apply (bool_decide_unpack
             (map_Forall (λ pid' p', pid' ≠ "p1" →
                            claim_at p' (claimsKey Demo.march) "dental" = None)
                (purchasesOf Demo.s1 (normalizeId "u1")))).
    by vm_compute.
Defined.

Lemma portal_after_checkout_witness :
  let s' := store_after (stripeWebhook Cases.events Demo.march "p1"
                           (Cases.delivery "checkout")) Demo.s0 in
  response_of (createCustomerPortal Cases.portal
                 {| po_userId := Some "u1"; po_planId := Some "basic" |}) s'
  = Some match Cases.portal "cus_1" with
         | inr url => {| status := 200; body := JsonUrl url |}
         | inl _ => portal_failed
         end.
Proof.
  apply (portal_after_checkout Cases.events Cases.portal Demo.march "p1"
           (Cases.delivery "checkout") "u1" "basic" "cus_1" Demo.basic
           Demo.patient50 Demo.s0).
  - reflexivity.
  - done.
  - done.
  - by vm_compute.
  - by vm_compute.
  - by vm_compute.
  - apply (bool_decide_unpack
             (map_Forall (λ _ p', health_plan_id p' ≠ "basic")
                (purchasesOf Demo.s0 (normalizeId "u1")))).
    by vm_compute.
Defined.
